(** * BigCommerce product metafield helper: a shallow embedding

    The development follows the layout of the repository:

    - [Js]      the JavaScript primitives the sources rely on (array [slice],
                string [split]/[join]/[trim], [parseInt], the default [sort]);
    - [Utils]   src/lib/utils.ts: [transformToMetafields] and [chunk];
    - [Effects] the outcome/trace monad used for the two command scripts;
    - [Types]   src/lib/types.ts, [Client] src/lib/client.ts;
    - [Create]  src/actions/create-metafields.ts;
    - [Delete]  src/actions/delete-metafields.ts;
    - [Spec]    the notions the statements are written with, and the inputs
                of the examples.

    Conventions.  A JavaScript string is a [string]: a sequence of code units,
    here restricted to the 8-bit range, with case conversion modelled on the
    ASCII letters.  A JavaScript number that holds an integer is a [Z]; an
    optional numeric option ([number | undefined], possibly [NaN] after
    [parseInt]) is an [option Z] whose [None] stands for both [undefined] and
    [NaN]: the sources only ever read such options through a truthiness test
    ([options.limit ? .. : ..], [options.skip || 0], [options.batchSize || 50]).
    Loops whose termination depends on their data (the [for (i = 0; i < n;
    i += size)] loops) take a fuel argument and report when it ran out. *)

From Stdlib Require Import ZArith List Bool Ascii String Lia.
From Stdlib Require Import DecimalString Sorted Permutation.
Import ListNotations.

Local Open Scope string_scope.
Local Open Scope list_scope.
Local Open Scope Z_scope.

(* ================================================================== *)
(** ** JavaScript primitives *)

Module Js.

(** [Array.prototype.slice]: a negative index counts from the end, an index
    past either end is clamped, an [undefined] end means the length. *)
Definition rel_index (len k : Z) : Z :=
  if k <? 0 then Z.max (len + k) 0 else Z.min k len.

Definition slice {T : Type} (a : list T) (start : Z) (end_ : option Z)
  : list T :=
  let len := Z.of_nat (List.length a) in
  let k := rel_index len start in
  let final := match end_ with
               | Some e => rel_index len e
               | None => len
               end in
  firstn (Z.to_nat (final - k)) (skipn (Z.to_nat k) a).

(** Truthiness of the option values the scripts test. *)
Definition truthy_num (n : option Z) : bool :=
  match n with
  | Some z => negb (z =? 0)
  | None => false
  end.

Definition truthy_str (s : option string) : bool :=
  match s with
  | Some "" => false
  | Some _ => true
  | None => false
  end.

(** [n || d] on an optional number. *)
Definition num_or (n : option Z) (d : Z) : Z :=
  match n with
  | Some z => if z =? 0 then d else z
  | None => d
  end.

(** White space as [String.prototype.trim] and the regular expression class
    [\s] see it (TAB, LF, VT, FF, CR, SPACE, NBSP in the 8-bit range), and
    the line terminators the regular expression [.] refuses. *)
Definition is_space (c : ascii) : bool :=
  let n := nat_of_ascii c in
  ((9 <=? n) && (n <=? 13) || (n =? 32) || (n =? 160))%nat.

Definition is_line_terminator (c : ascii) : bool :=
  let n := nat_of_ascii c in
  ((n =? 10) || (n =? 13))%nat.

(** [s.trim()], on the code units of the string. *)
Fixpoint drop_space (l : list ascii) : list ascii :=
  match l with
  | c :: r => if is_space c then drop_space r else l
  | [] => []
  end.

Definition trim_start (s : string) : string :=
  string_of_list_ascii (drop_space (list_ascii_of_string s)).

Definition trim (s : string) : string :=
  string_of_list_ascii
    (rev (drop_space (rev (drop_space (list_ascii_of_string s))))).

(** [s.split(sep)] for a one-character separator: never empty, the empty
    string splits into one empty piece. *)
Fixpoint split (sep : ascii) (s : string) : list string :=
  match s with
  | EmptyString => [EmptyString]
  | String c r =>
      if Ascii.eqb c sep then EmptyString :: split sep r
      else match split sep r with
           | p :: ps => String c p :: ps
           | [] => [String c EmptyString]
           end
  end.

(** [parts.join(sep)]. *)
Definition join (sep : string) (parts : list string) : string :=
  String.concat sep parts.

(** [c.toUpperCase()] on an ASCII code unit (below 128): a letter [a]-[z]
    becomes [A]-[Z], any other is unchanged.  Code units from 128 on are
    outside what is modelled ([toUpperCase] turns some of them into another
    letter, or into two); statements about case conversion are made for
    ASCII names. *)
Definition to_upper (c : ascii) : ascii :=
  let n := nat_of_ascii c in
  if ((97 <=? n) && (n <=? 122))%nat then ascii_of_nat (n - 32) else c.

(** [s.endsWith(suffix)]. *)
Definition ends_with (s suffix : string) : bool :=
  let n := String.length s in
  let m := String.length suffix in
  ((m <=? n)%nat && String.eqb (substring (n - m) m s) suffix)%bool.

(** [String(n)] for an integer that a number holds exactly (up to [2^53]
    in absolute value), printed with all its digits; from [1e21] on
    JavaScript prints an exponent, which is outside what is modelled. *)
Definition string_of_number (n : Z) : string :=
  NilZero.string_of_int (Z.to_int n).

(** The default [Array.prototype.sort] on strings orders by code units; it
    is stable, and strings that compare equal are identical, so an
    insertion sort gives the same array. *)
Fixpoint insert_sorted (x : string) (l : list string) : list string :=
  match l with
  | [] => [x]
  | y :: r => if String.leb x y then x :: l else y :: insert_sorted x r
  end.

Fixpoint sort (l : list string) : list string :=
  match l with
  | [] => []
  | x :: r => insert_sorted x (sort r)
  end.

(** [parseInt(s)] without a radix: leading white space is skipped, a sign is
    read, a [0x]/[0X] prefix selects base 16, and the longest run of digits
    is converted; no digit at all gives [NaN], here [None].  The value is
    the exact integer: JavaScript rounds it to a double above [2^53], which
    changes neither its sign nor whether it is zero. *)
Definition digit_value (c : ascii) : option Z :=
  let n := nat_of_ascii c in
  if ((48 <=? n) && (n <=? 57))%nat then Some (Z.of_nat (n - 48))
  else if ((97 <=? n) && (n <=? 122))%nat then Some (Z.of_nat (n - 87))
  else if ((65 <=? n) && (n <=? 90))%nat then Some (Z.of_nat (n - 55))
  else None.

Fixpoint parse_digits (radix : Z) (s : string) (acc : option Z) : option Z :=
  match s with
  | EmptyString => acc
  | String c r =>
      match digit_value c with
      | Some d =>
          if d <? radix
          then parse_digits radix r
                 (Some (match acc with Some a => a * radix + d | None => d end))
          else acc
      | None => acc
      end
  end.

Definition parse_unsigned (s : string) : option Z :=
  match s with
  | String "0" (String "x" r) => parse_digits 16 r None
  | String "0" (String "X" r) => parse_digits 16 r None
  | _ => parse_digits 10 s None
  end.

Definition parseInt_string (s : string) : option Z :=
  match trim_start s with
  | String "-" r => option_map Z.opp (parse_unsigned r)
  | String "+" r => parse_unsigned r
  | t => parse_unsigned t
  end.

(** [parseInt(v)] of a property that may be missing: [undefined] is
    converted to the string "undefined", which holds no digit. *)
Definition parseInt (v : option string) : option Z :=
  match v with
  | Some s => parseInt_string s
  | None => None
  end.

(** [parseInt(s, radix)]: the radix goes through [ToInt32]; 0 (or
    [undefined], here [None]) means base 10 with the [0x] prefix honoured, a
    radix outside 2..36 gives [NaN], and only radix 16 strips the prefix. *)
Definition to_int32 (z : Z) : Z :=
  let m := z mod 2 ^ 32 in
  if 2 ^ 31 <=? m then m - 2 ^ 32 else m.

Definition parse_unsigned_radix (R : Z) (stripPrefix : bool) (s : string)
  : option Z :=
  match stripPrefix, s with
  | true, String "0" (String "x" r) => parse_digits 16 r None
  | true, String "0" (String "X" r) => parse_digits 16 r None
  | _, _ => parse_digits R s None
  end.

Definition parseInt_radix (s : string) (radix : option Z) : option Z :=
  let R := match radix with
           | Some r => to_int32 r
           | None => 0
           end in
  let digits :=
    if R =? 0 then Some (parse_unsigned_radix 10 true)
    else if (R <? 2) || (36 <? R) then None
    else Some (parse_unsigned_radix R (R =? 16)) in
  match digits with
  | None => None
  | Some parse =>
      match trim_start s with
      | String "-" r => option_map Z.opp (parse r)
      | String "+" r => parse r
      | t => parse t
      end
  end.

End Js.

(* ================================================================== *)
(** ** src/lib/utils.ts *)

Module Utils.

(** A parsed CSV row, [Record<string, string>]: the own properties of the
    object in the order [Object.entries] enumerates them.  Property names
    are unique in an object. *)
Definition Row : Type := list (string * string).

(** Property read [row.k]; [None] is [undefined]. *)
Fixpoint get (row : Row) (k : string) : option string :=
  match row with
  | [] => None
  | (k', v) :: r => if String.eqb k' k then Some v else get r k
  end.

Record Metafield : Type := mkMetafield {
  resource_type : string;
  resource_id : Z;
  namespace : string;
  key : string;
  value : string;
  description : string;
  permission_set : string
}.

Definition skipColumns : list string := ["id"; "sku"].

Definition includes (l : list string) (s : string) : bool :=
  existsb (String.eqb s) l.

(** [header]: a string that is none of [skipColumns]. *)
Definition header_allows (s : string) : bool := negb (includes skipColumns s).

(** arktype's keyword [string.trim.preformatted] is a validator, not a
    transformation: it accepts the strings that are already trimmed, through
    the pattern [/^\S.*\S$|^\S?$/] (a non-space first and last character
    around a run that [.] accepts, or at most one non-space character). *)
Definition trim_preformatted (s : string) : bool :=
  match list_ascii_of_string s with
  | [] => true
  | [c] => negb (Js.is_space c)
  | c :: r =>
      negb (Js.is_space c)
      && forallb (fun x => negb (Js.is_line_terminator x)) (removelast r)
      && negb (Js.is_space (last r c))
  end.

(** [value]: the keyword above with [.moreThanLength(0)]. *)
Definition value_allows (s : string) : bool :=
  trim_preformatted s && (0 <? String.length s)%nat.

(** [columnSchema = type([header, value])], used through [.allows], which
    checks an entry and leaves it as it is. *)
Definition columnSchema_allows (e : string * string) : bool :=
  header_allows (fst e) && value_allows (snd e).

(** [word.charAt(0).toUpperCase() + word.slice(1)]. *)
Definition capitalize (word : string) : string :=
  match word with
  | EmptyString => EmptyString
  | String c r => String (Js.to_upper c) r
  end.

(** The body of the [.map] callback, for one entry that passed the filter. *)
Definition toMetafield (sku : string) (productId : Z) (e : string * string)
  : Metafield :=
  let (k, v) := e in
  let parts := Js.split "." k in
  let namespace := hd EmptyString parts in
  let rest := tl parts in
  let metafieldKey := Js.join "." rest in
  let formattedKey :=
    Js.join " " (map capitalize (Js.split "_" metafieldKey)) in
  {| resource_type := "product";
     resource_id := productId;
     namespace := namespace;
     key := metafieldKey;
     value := v;
     description := (formattedKey ++ " for " ++ sku)%string;
     permission_set := "write_and_sf_access" |}.

(** [row.sku || `product_${productId}`]. *)
Definition sku_of (row : Row) (productId : Z) : string :=
  match get row "sku" with
  | Some (String c r) => String c r
  | _ => ("product_" ++ Js.string_of_number productId)%string
  end.

Definition transformToMetafields (row : Row) (productId : Z)
  : list Metafield :=
  let sku := sku_of row productId in
  map (toMetafield sku productId) (filter columnSchema_allows row).

(** [chunk]: the loop [for (let i = 0; i < array.length; i += size)], one
    unit of fuel per test of the loop condition; [None] when the fuel runs
    out before the condition fails. *)
Fixpoint chunk_loop {T : Type} (fuel : nat) (array : list T) (size i : Z)
  (chunks : list (list T)) : option (list (list T)) :=
  match fuel with
  | O => None
  | S fuel' =>
      if i <? Z.of_nat (List.length array)
      then chunk_loop fuel' array size (i + size)
             (chunks ++ [Js.slice array i (Some (i + size))])
      else Some chunks
  end.

Definition chunk {T : Type} (fuel : nat) (array : list T) (size : Z)
  : option (list (list T)) :=
  chunk_loop fuel array size 0 [].

End Utils.

(* ================================================================== *)
(** ** Outcomes and traces

    The two command scripts talk to the file system, the remote API and the
    console, throw and catch exceptions, and call [process.exit].  A
    computation takes the state of the run (the trace of events so far and
    the local variables of the enclosing function) and gives the new state
    with an outcome.  An exception carries its [message].  [process.exit] and
    an exhausted fuel are not catchable. *)

Module Effects.

Inductive outcome (A : Type) : Type :=
| Ret (a : A)
| Throw (msg : string)
| Exit (code : Z)
| Diverge.

Arguments Ret {A} a.
Arguments Throw {A} msg.
Arguments Exit {A} code.
Arguments Diverge {A}.

(** What an awaited call gives back: a value, or a rejection. *)
Inductive result (A : Type) : Type :=
| Ok (a : A)
| Err (msg : string).

Arguments Ok {A} a.
Arguments Err {A} msg.

Record state (E L : Type) : Type := mkState {
  trace : list E;
  locals : L
}.

Arguments mkState {E L} trace locals.
Arguments trace {E L} s.
Arguments locals {E L} s.

Definition M (E L A : Type) : Type := state E L -> state E L * outcome A.

Section Ops.
Context {E L : Type}.

Definition ret {A : Type} (a : A) : M E L A := fun s => (s, Ret a).

Definition bind {A B : Type} (m : M E L A) (f : A -> M E L B) : M E L B :=
  fun s =>
    match m s with
    | (s', Ret a) => f a s'
    | (s', Throw msg) => (s', Throw msg)
    | (s', Exit code) => (s', Exit code)
    | (s', Diverge) => (s', Diverge)
    end.

Definition throw {A : Type} (msg : string) : M E L A :=
  fun s => (s, Throw msg).

Definition exit {A : Type} (code : Z) : M E L A :=
  fun s => (s, Exit code).

Definition diverge {A : Type} : M E L A := fun s => (s, Diverge).

(** [try { m } catch (error) { h error.message }]. *)
Definition try_catch {A : Type} (m : M E L A) (h : string -> M E L A)
  : M E L A :=
  fun s =>
    match m s with
    | (s', Throw msg) => h msg s'
    | r => r
    end.

Definition emit (e : E) : M E L unit :=
  fun s => (mkState (trace s ++ [e]) (locals s), Ret tt).

Definition get_locals : M E L L := fun s => (s, Ret (locals s)).

Definition modify (f : L -> L) : M E L unit :=
  fun s => (mkState (trace s) (f (locals s)), Ret tt).

(** An awaited call: the event is recorded, then the answer, which the
    outside world chose knowing everything that happened before, is
    returned or thrown. *)
Definition call {A : Type} (e : E) (answer : list E -> result A)
  : M E L A :=
  fun s =>
    let s' := mkState (trace s ++ [e]) (locals s) in
    match answer (trace s) with
    | Ok a => (s', Ret a)
    | Err msg => (s', Throw msg)
    end.

(** [for (const x of xs) { body x }]. *)
Fixpoint for_each {A : Type} (xs : list A) (body : A -> M E L unit)
  : M E L unit :=
  match xs with
  | [] => ret tt
  | x :: r => bind (body x) (fun _ => for_each r body)
  end.

End Ops.

(** Events that a predicate [bad] singles out: a trace is [clean] when it
    holds none of them, a computation is [quiet] when it adds none of them
    to a clean trace. *)
Definition clean {E : Type} (bad : E -> bool) (t : list E) : Prop :=
  existsb bad t = false.

Definition quiet {E L A : Type} (bad : E -> bool) (m : M E L A) : Prop :=
  forall s, clean bad (trace s) -> clean bad (trace (fst (m s))).

(** A computation [keeps] a property of the local variables when it holds
    after it whenever it held before. *)
Definition keeps {E L A : Type} (inv : L -> Prop) (m : M E L A) : Prop :=
  forall s, inv (locals s) -> inv (locals (fst (m s))).

(** A computation [fails_only] by a given cause when it always comes back,
    with a value or with an exception that the cause explains from the
    trace at the time it is thrown: it neither exits nor runs out of
    fuel. *)
Definition fails_only {E L A : Type} (cause : list E -> string -> Prop)
  (m : M E L A) : Prop :=
  forall s, exists s',
    (exists a, m s = (s', Ret a))
    \/ (exists msg, m s = (s', Throw msg) /\ cause (trace s') msg).

(** A computation [returns] when it always comes back with a value. *)
Definition returns {E L A : Type} (m : M E L A) : Prop :=
  forall s, exists s' a, m s = (s', Ret a).

Module Notations.
Notation "x <- m ;; k" := (bind m (fun x => k))
  (at level 61, m at next level, right associativity).
Notation "m ;; k" := (bind m (fun _ => k))
  (at level 61, right associativity).
End Notations.

End Effects.

(* ================================================================== *)
(** ** src/lib/types.ts *)

Module Types.

Record ProgramOptions : Type := mkProgramOptions {
  accessToken : option string;
  storeHash : option string;
  dryRun : option bool;
  skip : option Z;
  limit : option Z;
  batchSize : option Z
}.

(** [interface DeleteOptions extends ProgramOptions]. *)
Record DeleteOptions : Type := mkDeleteOptions {
  program : ProgramOptions;
  key : option (list string);
  namespace : option (list string);
  productId : option (list Z);
  all : option bool
}.

(** [if (options.dryRun === undefined) options.dryRun = true]. *)
Definition default_dryRun (o : ProgramOptions) : ProgramOptions :=
  match dryRun o with
  | Some _ => o
  | None =>
      mkProgramOptions (accessToken o) (storeHash o) (Some true)
        (skip o) (limit o) (batchSize o)
  end.

(** Truthiness of [options.dryRun]. *)
Definition is_dryRun (o : ProgramOptions) : bool :=
  match dryRun o with
  | Some b => b
  | None => false
  end.

(** [options.accessToken && options.storeHash], as a condition. *)
Definition has_credentials (o : ProgramOptions) : bool :=
  Js.truthy_str (accessToken o) && Js.truthy_str (storeHash o).

End Types.

(* ================================================================== *)
(** ** src/lib/client.ts *)

Module Client.

(** [Management.Client]: what [initializeClient] builds.  The remote calls
    made through it are the events of the two scripts below. *)
Record t : Type := mkClient {
  client_accessToken : string;
  client_storeHash : string
}.

Definition initializeClient (accessToken storeHash : string) : t :=
  mkClient accessToken storeHash.

(** [options.accessToken && options.storeHash ? initializeClient(..) :
    undefined]. *)
Definition of_options (o : Types.ProgramOptions) : option t :=
  match Types.accessToken o, Types.storeHash o with
  | Some a, Some h =>
      if Types.has_credentials o then Some (initializeClient a h) else None
  | _, _ => None
  end.

End Client.

(* ================================================================== *)
(** ** src/actions/create-metafields.ts *)

Module Create.

Import Effects Effects.Notations Types Utils.

(** The counters of [processAllFiles]. *)
Record Counters : Type := mkCounters {
  totalProducts : nat;
  totalMetafields : nat;
  successCount : nat;
  errorCount : nat
}.

Definition zero : Counters := mkCounters 0 0 0 0.

(** Calls that leave the process, and the console lines of the row loop and
    of the summary (the banner lines are not traced).  A console event holds
    the values interpolated into the line. *)
Inductive event : Type :=
| GetStore
| ReadDir
| ReadFile (file : string)
| Post (body : list Metafield)
| LogCreated (n : nat) (productId : Z) (sku : option string)
| LogError (productId : Z) (sku : option string) (msg : string)
| LogDryRun (n : nat) (productId : Z) (sku : option string)
| LogSummary (c : Counters)
| LogConfigError
| LogFatal (msg : string).

(** The outside world: the directory, the CSV files as [parseCSVFile] reads
    them, and the remote API.  Each answer may depend on the events so
    far. *)
Record World : Type := mkWorld {
  readdir : list event -> result (list string);
  parseCSVFile : list event -> string -> result (list Row);
  post : list event -> list Metafield -> result unit
}.

Definition Run (A : Type) : Type := M event Counters A.

Section Script.

Variable world : World.
Variable options : ProgramOptions.

(** The selection both [readCSVFiles] and [processAllFiles] make. *)
Definition select_files (files : list string) : list string :=
  let csvFiles := Js.sort (filter (fun file => Js.ends_with file ".csv") files) in
  let skipCount := Js.num_or (skip options) 0 in
  Js.slice csvFiles skipCount
    (match limit options with
     | Some l => if Js.truthy_num (Some l) then Some (skipCount + l) else None
     | None => None
     end).

Definition readCSVFiles : Run (list string * option Row) :=
  files <- call ReadDir (readdir world) ;;
  let csvFiles := select_files files in
  match csvFiles with
  | firstFile :: _ =>
      data <- call (ReadFile firstFile)
                (fun t => parseCSVFile world t firstFile) ;;
      ret (csvFiles, hd_error data)
  | [] => ret (csvFiles, None)
  end.

Definition count_product (n : nat) (c : Counters) : Counters :=
  mkCounters (S (totalProducts c)) (totalMetafields c + n)
    (successCount c) (errorCount c).

Definition count_success (n : nat) (c : Counters) : Counters :=
  mkCounters (totalProducts c) (totalMetafields c)
    (successCount c + n) (errorCount c).

Definition count_error (c : Counters) : Counters :=
  mkCounters (totalProducts c) (totalMetafields c)
    (successCount c) (S (errorCount c)).

(** [for (let i = 0; i < metafields.length; i += batchSize)], entered at
    index [i]. *)
Fixpoint post_loop (fuel : nat) (row : Row) (productId : Z)
  (metafields : list Metafield) (batchSize i : Z) : Run unit :=
  match fuel with
  | O => diverge
  | S fuel' =>
      if i <? Z.of_nat (List.length metafields)
      then
        let batch := Js.slice metafields i (Some (i + batchSize)) in
        call (Post batch) (fun t => post world t batch) ;;
        modify (count_success (List.length batch)) ;;
        emit (LogCreated (List.length batch) productId (get row "sku")) ;;
        post_loop fuel' row productId metafields batchSize (i + batchSize)
      else ret tt
  end.

(** The [try { .. } catch (error) { .. }] statement of the row loop. *)
Definition submit_row (fuel : nat) (row : Row) (productId : Z)
  (metafields : list Metafield) : Run unit :=
  try_catch
    (let batchSize := Js.num_or (batchSize options) 50 in
     post_loop fuel row productId metafields batchSize 0)
    (fun msg =>
       modify count_error ;;
       emit (LogError productId (get row "sku") msg)).

(** The body of [for (const row of data)]: [continue] when [productId]
    is falsy ([NaN] or 0). *)
Definition process_row (fuel : nat) (client : option Client.t) (row : Row)
  : Run unit :=
  match Js.parseInt (get row "id") with
  | None => ret tt
  | Some productId =>
      if productId =? 0 then ret tt
      else
        let metafields := transformToMetafields row productId in
        modify (count_product (List.length metafields)) ;;
        if negb (is_dryRun options)
           && (match client with Some _ => true | None => false end)
           && (0 <? List.length metafields)%nat
        then submit_row fuel row productId metafields
        else if is_dryRun options
        then emit (LogDryRun (List.length metafields) productId
                     (get row "sku"))
        else ret tt
  end.

Definition process_file (fuel : nat) (client : option Client.t)
  (file : string) : Run unit :=
  data <- call (ReadFile file) (fun t => parseCSVFile world t file) ;;
  for_each data (process_row fuel client).

Definition processAllFiles (fuel : nat) (client : option Client.t)
  : Run unit :=
  files <- call ReadDir (readdir world) ;;
  let csvFiles := select_files files in
  modify (fun _ => zero) ;;
  for_each csvFiles (process_file fuel client) ;;
  c <- get_locals ;;
  emit (LogSummary c).

(** [getStoreInfo] catches whatever its request throws; its answer only
    feeds console lines. *)
Definition getStoreInfo : Run unit := emit GetStore.

Definition main (fuel : nat) : Run unit :=
  try_catch
    (client <- (if has_credentials options
                then getStoreInfo ;; ret (Client.of_options options)
                else ret None) ;;
     _ <- readCSVFiles ;;
     processAllFiles fuel client)
    (fun msg => emit (LogFatal msg) ;; exit 1).

End Script.

(** The module body: defaulting of [dryRun], the credentials check, then
    [main()]. *)
Definition script (world : World) (opts : ProgramOptions) (fuel : nat)
  : Run unit :=
  let options := default_dryRun opts in
  if negb (is_dryRun options)
     && (negb (Js.truthy_str (accessToken options))
         || negb (Js.truthy_str (storeHash options)))
  then emit LogConfigError ;; exit 1
  else main world options fuel.

Definition init : state event Counters := mkState [] zero.

(** The remote calls that change the store. *)
Definition is_mutating (e : event) : bool :=
  match e with
  | Post _ => true
  | _ => false
  end.

(** The bodies submitted, in order. *)
Fixpoint posts (t : list event) : list (list Metafield) :=
  match t with
  | [] => []
  | Post body :: r => body :: posts r
  | _ :: r => posts r
  end.

End Create.

(* ================================================================== *)
(** ** src/actions/delete-metafields.ts *)

Module Delete.

Import Effects Effects.Notations Types.

(** A value of a field of a record the listing returned. *)
Inductive jsval : Type :=
| JUndefined
| JNumber (n : Z)
| JString (s : string)
| JOther.

(** A listed record, read at the five fields the query projects. *)
Record RawItem : Type := mkRawItem {
  raw_id : jsval;
  raw_resource_id : jsval;
  raw_key : jsval;
  raw_namespace : jsval;
  raw_value : jsval
}.

(** [productMetafieldSchema.infer]. *)
Record ProductMetafield : Type := mkProductMetafield {
  id : Z;
  resource_id : Z;
  mf_key : string;
  mf_namespace : string;
  value : string
}.

(** [productMetafieldSchema]: [Some] of the narrowed record when [.allows]
    accepts the item (fields beyond the five are ignored). *)
Definition productMetafieldSchema (item : RawItem)
  : option ProductMetafield :=
  match raw_id item, raw_resource_id item, raw_key item,
        raw_namespace item, raw_value item with
  | JNumber i, JNumber r, JString k, JString n, JString v =>
      Some (mkProductMetafield i r k n v)
  | _, _, _, _, _ => None
  end.

Fixpoint filter_allows (items : list RawItem) : list ProductMetafield :=
  match items with
  | [] => []
  | item :: r =>
      match productMetafieldSchema item with
      | Some m => m :: filter_allows r
      | None => filter_allows r
      end
  end.

(** The [query] object of [fetchMetafields], at its three filters. *)
Record Query : Type := mkQuery {
  key_in : option (list string);
  namespace_in : option (list string);
  resource_id_in : option (list Z)
}.

Inductive event : Type :=
| GetStore
| ListCall (query : Query)
| DeleteCall (ids : list Z)
| LogBatch (index total n : nat)
| LogDeleted (n : nat)
| LogDeleteError (msg : string)
| LogNoneFound
| LogFetchError (msg : string)
| LogSample (sample : list ProductMetafield)
| LogSummary (found success failed : nat)
| LogConfigError
| LogFatal (msg : string).

(** The outside world: the listing yields its items in order and may then
    throw; a delete request succeeds or throws. *)
Record World : Type := mkWorld {
  list_ : list event -> Query -> list RawItem * option string;
  delete : list event -> list Z -> result unit
}.

Definition Run (A : Type) : Type := M event unit A.

Section Script.

Variable world : World.
Variable options : DeleteOptions.

(** [for await (const item of iterator)], with the [break] once
    [items.length >= (options.limit || Infinity)]. *)
Fixpoint fetch_loop (yielded : list RawItem) (failure : option string)
  (items : list RawItem) : Run (list RawItem) :=
  match yielded with
  | [] =>
      match failure with
      | Some msg => throw msg
      | None => ret items
      end
  | item :: rest =>
      let items := items ++ [item] in
      if match limit (program options) with
         | Some l =>
             Js.truthy_num (Some l) && (l <=? Z.of_nat (List.length items))
         | None => false
         end
      then ret items
      else fetch_loop rest failure items
  end.

Definition fetchMetafields (client : Client.t)
  : Run (list ProductMetafield) :=
  let query := mkQuery (key options) (namespace options)
                 (productId options) in
  try_catch
    (listing <- call (ListCall query)
                  (fun t => Ok (list_ world t query)) ;;
     items <- fetch_loop (fst listing) (snd listing) [] ;;
     match items with
     | [] => emit LogNoneFound ;; exit 0
     | _ => ret (filter_allows items)
     end)
    (fun msg => emit (LogFetchError msg) ;; exit 1).

(** [for (const [index, batch] of batches.entries())]. *)
Fixpoint delete_loop (total : nat) (batches : list (list ProductMetafield))
  (index success failed : nat) : Run (nat * nat) :=
  match batches with
  | [] => ret (success, failed)
  | batch :: rest =>
      emit (LogBatch (index + 1) total (List.length batch)) ;;
      r <- try_catch
             (let ids := map id batch in
              call (DeleteCall ids) (fun t => delete world t ids) ;;
              emit (LogDeleted (List.length batch)) ;;
              ret (success + List.length batch, failed)%nat)
             (fun msg =>
                emit (LogDeleteError msg) ;;
                ret (success, failed + List.length batch)%nat) ;;
      delete_loop total rest (S index) (fst r) (snd r)
  end.

Definition deleteMetafields (fuel : nat) (client : Client.t)
  (metafields : list ProductMetafield) (batchSize : Z)
  : Run (nat * nat) :=
  match Utils.chunk fuel metafields batchSize with
  | None => diverge
  | Some batches => delete_loop (List.length batches) batches 0 0 0
  end.

Definition getStoreInfo : Run unit := emit GetStore.

Definition main (fuel : nat) : Run unit :=
  try_catch
    (client <- (if has_credentials (program options)
                then getStoreInfo ;;
                     ret (Client.of_options (program options))
                else ret None) ;;
     (if is_dryRun (program options) then ret tt
      else match client with
           | Some _ => ret tt
           | None => exit 1
           end) ;;
     match client with
     | None => exit 1
     | Some client =>
         metafields <- fetchMetafields client ;;
         match metafields with
         | [] => ret tt
         | _ =>
             if is_dryRun (program options)
             then emit (LogSample (Js.slice metafields 0 (Some 5)))
             else
               let batchSize := Js.num_or (batchSize (program options)) 50 in
               r <- deleteMetafields fuel client metafields batchSize ;;
               emit (LogSummary (List.length metafields) (fst r) (snd r))
         end
     end)
    (fun msg => emit (LogFatal msg) ;; exit 1).

End Script.

Definition with_program (o : DeleteOptions) (p : ProgramOptions)
  : DeleteOptions :=
  mkDeleteOptions p (key o) (namespace o) (productId o) (all o).

Definition is_undefined {A : Type} (v : option A) : bool :=
  match v with
  | Some _ => false
  | None => true
  end.

(** The module body: defaulting of [dryRun], the credentials check, the
    criteria check, then [main()].  An array option, once given, is truthy
    even when empty. *)
Definition script (world : World) (opts : DeleteOptions) (fuel : nat)
  : Run unit :=
  let options := with_program opts (default_dryRun (program opts)) in
  if negb (is_dryRun (program options))
     && (negb (Js.truthy_str (accessToken (program options)))
         || negb (Js.truthy_str (storeHash (program options))))
  then emit LogConfigError ;; exit 1
  else if is_undefined (key options)
          && is_undefined (namespace options)
          && is_undefined (productId options)
  then emit LogConfigError ;; exit 1
  else main world options fuel.

Definition init : state event unit := mkState [] tt.

Definition is_mutating (e : event) : bool :=
  match e with
  | DeleteCall _ => true
  | _ => false
  end.

(** A request to the remote API. *)
Definition is_remote (e : event) : bool :=
  match e with
  | GetStore | ListCall _ | DeleteCall _ => true
  | _ => false
  end.

(** The identifier lists submitted for deletion, in order. *)
Fixpoint deletes (t : list event) : list (list Z) :=
  match t with
  | [] => []
  | DeleteCall ids :: r => ids :: deletes r
  | _ :: r => deletes r
  end.

End Delete.

(* ================================================================== *)
(** ** The option declarations of the two scripts

    [program.option(flags, description, parser, default)]: commander calls
    the parser with the argument given on the command line and the previous
    value of the option, which is the declared default at the first
    occurrence.  Both scripts pass [parseInt] itself as the parser of their
    numeric options, so it receives the default as its radix. *)

Module Cli.

(** A flag may occur several times on the command line; the arguments of
    its occurrences are taken in order, each parsed with the value left by
    the one before. *)
Definition numeric_option (default : option Z) (args : list string)
  : option Z :=
  fold_left (fun previous v => Js.parseInt_radix v previous) args default.

(** [.option("--skip <number>", .., parseInt, 0)]. *)
Definition skip_option : list string -> option Z := numeric_option (Some 0).

(** [.option("--limit <number>", .., parseInt)]. *)
Definition limit_option : list string -> option Z := numeric_option None.

(** [.option("--batch-size <number>", .., parseInt, 50)]. *)
Definition batchSize_option : list string -> option Z :=
  numeric_option (Some 50).

(** The parser of [--dry-run <boolean>], which ignores the previous value;
    default [true]. *)
Definition parse_dryRun (v : string) : bool :=
  if String.eqb v "false" || String.eqb v "0" || String.eqb v "no"
  then false
  else true.

Definition dryRun_option (args : list string) : option bool :=
  fold_left (fun _ v => Some (parse_dryRun v)) args (Some true).

(** An option without parser and default: the last argument given. *)
Definition string_option (args : list string) : option string :=
  fold_left (fun _ v => Some v) args None.

(** [program.opts()] of the create script, from the arguments given to each
    flag. *)
Definition create_opts
  (accessToken storeHash dryRun skip limit batchSize : list string)
  : Types.ProgramOptions :=
  Types.mkProgramOptions (string_option accessToken)
    (string_option storeHash) (dryRun_option dryRun)
    (skip_option skip) (limit_option limit) (batchSize_option batchSize).

End Cli.

(* ================================================================== *)
(** ** Definitions used in the statements *)

Module Spec.

(** The groups a batcher of size [n] is expected to give: the first [n]
    elements, then the groups of what is left. *)
Fixpoint chunks_aux {T : Type} (fuel n : nat) (l : list T)
  : list (list T) :=
  match fuel with
  | O => []
  | S fuel' =>
      match l with
      | [] => []
      | _ :: _ => firstn n l :: chunks_aux fuel' n (skipn n l)
      end
  end.

(** A column name with a ['.'] in it. *)
Definition contains_dot (s : string) : bool :=
  existsb (Ascii.eqb ".") (list_ascii_of_string s).

(** [trim] on the code units. *)
Definition trim_list (l : list ascii) : list ascii :=
  rev (Js.drop_space (rev (Js.drop_space l))).


(** A value without a line break. *)
Definition single_line (v : string) : bool :=
  forallb (fun c => negb (Js.is_line_terminator c)) (list_ascii_of_string v).

(** A value that is not empty, is its own trimmed form and holds no line
    break. *)
Definition already_trimmed (v : string) : bool :=
  negb (String.eqb v "") && String.eqb (Js.trim v) v && single_line v.


(** The order of the default [sort] on strings. *)
Definition string_le (a b : string) : Prop := String.leb a b = true.

(** The files of a listing the create script looks at. *)
Definition eligible (files : list string) : list string :=
  filter (fun file => Js.ends_with file ".csv") files.

(** A file system and a remote API for examples: a fixed directory, fixed
    file contents, and a remote that accepts the bodies [accept] takes. *)
Definition create_world (dir : list string)
  (content : string -> list Utils.Row)
  (accept : list Utils.Metafield -> bool) : Create.World :=
  Create.mkWorld
    (fun _ => Effects.Ok dir)
    (fun _ file => Effects.Ok (content file))
    (fun _ body =>
       if accept body then Effects.Ok tt else Effects.Err "rejected").

(** A listing and a remote API for examples. *)
Definition delete_world (listing : list Delete.RawItem)
  (accept : list Z -> bool) : Delete.World :=
  Delete.mkWorld
    (fun _ _ => (listing, None))
    (fun _ ids =>
       if accept ids then Effects.Ok tt else Effects.Err "rejected").

(** Live options with credentials and a batch size. *)
Definition live_options (batchSize : Z) : Types.ProgramOptions :=
  Types.mkProgramOptions (Some "token") (Some "hash") (Some false)
    None None (Some batchSize).

(** Dry-run options with credentials. *)
Definition dry_options : Types.ProgramOptions :=
  Types.mkProgramOptions (Some "token") (Some "hash") (Some true)
    None None None.

(** Delete options that filter on one key. *)
Definition by_key (p : Types.ProgramOptions) : Types.DeleteOptions :=
  Types.mkDeleteOptions p (Some ["short_description_mf"]) None None None.

(** Delete options without any criterion, the [all] override set. *)
Definition all_override (p : Types.ProgramOptions) : Types.DeleteOptions :=
  Types.mkDeleteOptions p None None None (Some true).

(** A directory with one file, which holds the given rows. *)
Definition one_file (rows : list Utils.Row)
  (accept : list Utils.Metafield -> bool) : Create.World :=
  create_world ["products.csv"] (fun _ => rows) accept.

(** A well-formed listed record. *)
Definition listed (i : Z) : Delete.RawItem :=
  Delete.mkRawItem (Delete.JNumber i) (Delete.JNumber 100)
    (Delete.JString "short_description_mf") (Delete.JString "custom")
    (Delete.JString "text").

(** A validated listed record. *)
Definition found (i : Z) : Delete.ProductMetafield :=
  Delete.mkProductMetafield i 100 "short_description_mf" "custom" "text".

(** A row for product 5 with two metafield columns. *)
Definition two_column_row : Utils.Row :=
  [("id", "5"); ("a.b", "x"); ("a.c", "y")].

Definition the_client : Client.t := Client.initializeClient "token" "hash".

(** The first data row of the README's example CSV. *)
Definition example_row : Utils.Row :=
  [("id", "123"); ("sku", "SKU0001");
   ("namespace_1.key_1", "Value 11");
   ("namespace_1.key_2", "Value 21");
   ("namespace_2.key_1", "Value 31")].

(** What the [try] statement of a row is to do with the batches of the row:
    submit them in order, logging and counting each accepted one, and stop
    at the first one the remote rejects, with its message. *)
Fixpoint first_rejection (world : Create.World) (row : Utils.Row)
  (productId : Z) (batches : list (list Utils.Metafield))
  (s : Effects.state Create.event Create.Counters)
  : Effects.state Create.event Create.Counters * option string :=
  match batches with
  | [] => (s, None)
  | batch :: rest =>
      let sent := Effects.trace s ++ [Create.Post batch] in
      match Create.post world (Effects.trace s) batch with
      | Effects.Ok _ =>
          first_rejection world row productId rest
            (Effects.mkState
               (sent ++ [Create.LogCreated (List.length batch) productId
                           (Utils.get row "sku")])
               (Create.count_success (List.length batch) (Effects.locals s)))
      | Effects.Err msg =>
          (Effects.mkState sent (Effects.locals s), Some msg)
      end
  end.

(** What the delete script is to do with its batches: announce and submit
    each one in order, whatever happened to the earlier ones, and count its
    records as deleted when the remote accepts the request, as failed when
    it rejects it. *)
Fixpoint delete_accounting (world : Delete.World) (total : nat)
  (batches : list (list Delete.ProductMetafield)) (index : nat)
  (s : Effects.state Delete.event unit) (success failed : nat)
  : Effects.state Delete.event unit * (nat * nat) :=
  match batches with
  | [] => (s, (success, failed))
  | batch :: rest =>
      let ids := map Delete.id batch in
      let announced :=
        Effects.trace s
        ++ [Delete.LogBatch (index + 1) total (List.length batch)] in
      match Delete.delete world announced ids with
      | Effects.Ok _ =>
          delete_accounting world total rest (S index)
            (Effects.mkState
               ((announced ++ [Delete.DeleteCall ids])
                ++ [Delete.LogDeleted (List.length batch)])
               (Effects.locals s))
            (success + List.length batch)%nat failed
      | Effects.Err msg =>
          delete_accounting world total rest (S index)
            (Effects.mkState
               ((announced ++ [Delete.DeleteCall ids])
                ++ [Delete.LogDeleteError msg])
               (Effects.locals s))
            success (failed + List.length batch)%nat
      end
  end.

(** The trace [t] ends on a reading of the directory or of a file that
    failed with the message [msg]. *)
Definition read_failure (world : Create.World) (t : list Create.event)
  (msg : string) : Prop :=
  exists t0,
    (t = t0 ++ [Create.ReadDir]
     /\ Create.readdir world t0 = Effects.Err msg)
    \/ (exists file,
          t = t0 ++ [Create.ReadFile file]
          /\ Create.parseCSVFile world t0 file = Effects.Err msg).

(** A string of ASCII code units, on which [Js.to_upper] is
    [toUpperCase]. *)
Definition is_ascii (s : string) : bool :=
  forallb (fun c => (nat_of_ascii c <? 128)%nat) (list_ascii_of_string s).

(** An integer that a JavaScript number holds exactly and prints with all
    its digits. *)
Definition safe_integer (n : Z) : Prop := Z.abs n <= 2 ^ 53.

(** The number of groups of at most [n] that [len] elements make. *)
Definition group_count (len n : Z) : Z := (len + n - 1) / n.

(** A string without the character [c]. *)
Definition without (c : ascii) (s : string) : bool :=
  negb (existsb (Ascii.eqb c) (list_ascii_of_string s)).

(** A submission of the create script that is empty or holds more than [n]
    records. *)
Definition bad_post (n : Z) (e : Create.event) : bool :=
  match e with
  | Create.Post body =>
      negb ((1 <=? Z.of_nat (List.length body))
            && (Z.of_nat (List.length body) <=? n))
  | _ => false
  end.

(** A deletion request that is empty or holds more than [n] identifiers. *)
Definition bad_delete (n : Z) (e : Delete.event) : bool :=
  match e with
  | Delete.DeleteCall ids =>
      negb ((1 <=? Z.of_nat (List.length ids))
            && (Z.of_nat (List.length ids) <=? n))
  | _ => false
  end.

(** The counters of the create script never report more created records
    than records to create, nor more errors than products. *)
Definition counters_ok (c : Create.Counters) : Prop :=
  (Create.successCount c <= Create.totalMetafields c)%nat
  /\ (Create.errorCount c <= Create.totalProducts c)%nat.

(** The listed item a well-shaped record comes from, at its five fields. *)
Definition raw_of (m : Delete.ProductMetafield) : Delete.RawItem :=
  Delete.mkRawItem (Delete.JNumber (Delete.id m))
    (Delete.JNumber (Delete.resource_id m))
    (Delete.JString (Delete.mf_key m))
    (Delete.JString (Delete.mf_namespace m))
    (Delete.JString (Delete.value m)).

(** Delete options with credentials, live, filtering on one key. *)
Definition live_by_key (batchSize : Z) : Types.DeleteOptions :=
  by_key (live_options batchSize).

End Spec.

(* ================================================================== *)
(** * Properties *)

(** ** The batcher *)

Section Chunk.

Context {T : Type}.

Lemma slice_from_prefix (pre rest : list T) (n : Z) :
  0 <= n ->
  Js.slice (pre ++ rest) (Z.of_nat (List.length pre))
    (Some (Z.of_nat (List.length pre) + n))
  = firstn (Z.to_nat n) rest.
Proof.
  intros Hn. unfold Js.slice, Js.rel_index.
  rewrite length_app, Nat2Z.inj_add.
  set (p := Z.of_nat (List.length pre)).
  set (r := Z.of_nat (List.length rest)).
  assert (Hp : 0 <= p) by (subst p; lia).
  assert (Hr : 0 <= r) by (subst r; lia).
  destruct (p <? 0) eqn:E1; [apply Z.ltb_lt in E1; lia|].
  destruct (p + n <? 0) eqn:E2; [apply Z.ltb_lt in E2; lia|].
  rewrite (Z.min_l p (p + r)) by lia.
  replace (Z.to_nat p) with (List.length pre) by (subst p; lia).
  rewrite skipn_app, skipn_all, Nat.sub_diag. simpl.
  destruct (Z.le_gt_cases n r) as [Hle|Hgt].
  - rewrite Z.min_l by lia. f_equal. lia.
  - rewrite Z.min_r by lia.
    replace (p + r - p) with r by lia.
    rewrite !firstn_all2; trivial; subst r; lia.
Qed.

Lemma chunk_loop_done (fuel : nat) (array : list T) (size i : Z)
  (chunks : list (list T)) :
  Z.of_nat (List.length array) <= i ->
  Utils.chunk_loop (S fuel) array size i chunks = Some chunks.
Proof.
  intros H. simpl.
  destruct (i <? Z.of_nat (List.length array)) eqn:E; trivial.
  apply Z.ltb_lt in E. lia.
Qed.

(** With groups of one element or more, fuel beyond the length of the
    list changes nothing. *)
Lemma chunks_aux_fuel (k : nat) (Hk : (1 <= k)%nat) :
  forall (f1 f2 : nat) (l : list T),
    (List.length l <= f1)%nat -> (List.length l <= f2)%nat ->
    Spec.chunks_aux f1 k l = Spec.chunks_aux f2 k l.
Proof.
  induction f1 as [|f1 IH]; intros f2 l H1 H2.
  - destruct l; [|simpl in H1; lia]. now destruct f2.
  - destruct l as [|y l]; [now destruct f2|].
    destruct f2 as [|f2]; [simpl in H2; lia|].
    cbn [Spec.chunks_aux]. f_equal.
    assert (H : (List.length (skipn k (y :: l)) <= List.length l)%nat)
      by (rewrite length_skipn; cbn [List.length]; lia).
    apply IH; cbn [List.length] in H1, H2; lia.
Qed.

(** The loop, entered at the end of a prefix, appends the expected groups
    of the rest. *)
Lemma chunk_loop_chunks (n : Z) (Hn : 1 <= n) :
  forall (fuel : nat) (rest pre : list T) (i : Z) (acc : list (list T)),
    (List.length rest < fuel)%nat ->
    Z.of_nat (List.length pre) <= i ->
    (rest <> [] -> i = Z.of_nat (List.length pre)) ->
    Utils.chunk_loop fuel (pre ++ rest) n i acc
    = Some (acc ++ Spec.chunks_aux (List.length rest) (Z.to_nat n) rest).
Proof.
  induction fuel as [|fuel IH]; intros rest pre i acc Hf Hi Hrest; [lia|].
  destruct rest as [|x rest].
  - rewrite app_nil_r in *. rewrite chunk_loop_done by lia.
    simpl. now rewrite app_nil_r.
  - assert (i = Z.of_nat (List.length pre)) as -> by (apply Hrest; discriminate).
    cbn [Utils.chunk_loop].
    destruct (_ <? _) eqn:E.
    2:{ apply Z.ltb_ge in E. rewrite length_app in E. simpl in E. lia. }
    rewrite slice_from_prefix by lia.
    set (g := firstn (Z.to_nat n) (x :: rest)).
    set (rest' := skipn (Z.to_nat n) (x :: rest)).
    assert (Hsplit : x :: rest = g ++ rest') by (symmetry; apply firstn_skipn).
    assert (Hlen : (List.length rest' <= List.length rest)%nat).
    { subst rest'. rewrite length_skipn. cbn [List.length]. lia. }
    rewrite Hsplit at 1. rewrite app_assoc.
    rewrite IH.
    + cbn [Spec.chunks_aux List.length]. rewrite <- app_assoc. simpl.
      fold g. fold rest'. do 3 f_equal.
      apply chunks_aux_fuel; lia.
    + cbn [List.length] in Hf. lia.
    + rewrite length_app. subst g. rewrite length_firstn.
      cbn [List.length]. lia.
    + intros Hne. rewrite length_app. subst g.
      rewrite length_firstn.
      destruct (Nat.le_gt_cases (Z.to_nat n) (List.length (x :: rest))) as [Hle|Hgt].
      * rewrite Nat.min_l by trivial. lia.
      * exfalso. apply Hne. subst rest'. apply skipn_all2. lia.
Qed.

End Chunk.

Section ChunkProperties.

Context {T : Type}.

Variable k : nat.
Hypothesis Hk : (1 <= k)%nat.

Lemma chunks_aux_concat :
  forall (fuel : nat) (l : list T),
    (List.length l <= fuel)%nat -> List.concat (Spec.chunks_aux fuel k l) = l.
Proof.
  induction fuel as [|fuel IH]; intros l Hl.
  - destruct l; [reflexivity|cbn [List.length] in Hl; lia].
  - destruct l as [|x l]; [reflexivity|].
    cbn [Spec.chunks_aux List.concat]. rewrite IH.
    + apply firstn_skipn.
    + rewrite length_skipn. cbn [List.length] in *. lia.
Qed.

Lemma chunks_aux_bounds :
  forall (fuel : nat) (l : list T),
    Forall (fun g => (1 <= List.length g <= k)%nat) (Spec.chunks_aux fuel k l).
Proof.
  induction fuel as [|fuel IH]; intros l; [constructor|].
  destruct l as [|x l]; [constructor|].
  cbn [Spec.chunks_aux]. constructor; [|apply IH].
  rewrite length_firstn. cbn [List.length]. lia.
Qed.

Lemma chunks_aux_nil_inv :
  forall (fuel : nat) (l : list T),
    (List.length l <= fuel)%nat -> Spec.chunks_aux fuel k l = [] -> l = [].
Proof.
  intros [|fuel] [|x l] Hl H; trivial.
  - cbn [List.length] in Hl. lia.
  - discriminate H.
Qed.

Lemma chunks_aux_full :
  forall (fuel : nat) (l : list T),
    (List.length l <= fuel)%nat ->
    Forall (fun g => List.length g = k) (removelast (Spec.chunks_aux fuel k l)).
Proof.
  induction fuel as [|fuel IH]; intros l Hl; [constructor|].
  destruct l as [|x l]; [constructor|].
  cbn [Spec.chunks_aux].
  assert (Hs : (List.length (skipn k (x :: l)) <= fuel)%nat)
    by (rewrite length_skipn; cbn [List.length] in *; lia).
  destruct (Spec.chunks_aux fuel k (skipn k (x :: l))) as [|g gs] eqn:E.
  - constructor.
  - change (removelast (firstn k (x :: l) :: g :: gs))
      with (firstn k (x :: l) :: removelast (g :: gs)).
    constructor.
    + rewrite length_firstn.
      destruct (Nat.le_gt_cases k (List.length (x :: l))) as [Hle|Hgt]; [lia|].
      rewrite skipn_all2 in E by lia. destruct fuel; discriminate E.
    + rewrite <- E. now apply IH.
Qed.

End ChunkProperties.

(** C9: for every sequence [S] and size [N >= 1], [chunk] returns (given
    fuel for one more test than [S] has elements) groups whose concatenation
    in order is [S]; every group but the last has length [N], and the last
    has between 1 and [N] elements. *)
Theorem chunk_partition (T : Type) (S : list T) (N : Z) (fuel : nat) :
  1 <= N ->
  (List.length S < fuel)%nat ->
  exists groups : list (list T),
    Utils.chunk fuel S N = Some groups
    /\ List.concat groups = S
    /\ Forall (fun g => Z.of_nat (List.length g) = N) (removelast groups)
    /\ (groups <> [] -> 1 <= Z.of_nat (List.length (last groups [])) <= N).
Proof.
  intros HN Hfuel.
  exists (Spec.chunks_aux (List.length S) (Z.to_nat N) S).
  assert (Hk : (1 <= Z.to_nat N)%nat) by lia.
  split; [|split; [|split]].
  - unfold Utils.chunk.
    apply (chunk_loop_chunks N HN fuel S [] 0 []); [trivial|simpl; lia|reflexivity].
  - now apply chunks_aux_concat.
  - eapply Forall_impl; [|apply (chunks_aux_full (Z.to_nat N) Hk); lia].
    cbn beta. intros g Hg. lia.
  - intros Hne.
    pose proof (chunks_aux_bounds (T := T) (Z.to_nat N) Hk (List.length S) S) as Hb.
    rewrite Forall_forall in Hb.
    destruct (exists_last Hne) as (gs & g & E). rewrite E, last_last.
    specialize (Hb g). rewrite E in Hb.
    assert (Hin : In g (gs ++ [g])) by (apply in_or_app; right; now left).
    specialize (Hb Hin). lia.
Qed.

Lemma chunk_partition_witness :
  1 <= 2 /\ (List.length [10; 20; 30; 40; 50] < 6)%nat
  /\ exists groups : list (list Z),
       Utils.chunk 6 [10; 20; 30; 40; 50] 2 = Some groups
       /\ List.concat groups = [10; 20; 30; 40; 50]
       /\ Forall (fun g => Z.of_nat (List.length g) = 2) (removelast groups)
       /\ (groups <> [] -> 1 <= Z.of_nat (List.length (last groups [])) <= 2).
Proof.
  split; [lia|]. split; [simpl; lia|].
  apply (chunk_partition Z [10; 20; 30; 40; 50] 2 6); [lia|simpl; lia].
Defined.

(** The loop makes no progress from an index at or below zero when the size
    is not positive. *)
Lemma chunk_loop_stuck (T : Type) (array : list T) (size : Z) :
  size <= 0 -> array <> [] ->
  forall (fuel : nat) (i : Z) (chunks : list (list T)),
    i <= 0 -> Utils.chunk_loop fuel array size i chunks = None.
Proof.
  intros Hs Ha. induction fuel as [|fuel IH]; intros i chunks Hi; [reflexivity|].
  cbn [Utils.chunk_loop].
  destruct (i <? Z.of_nat (List.length array)) eqn:E.
  - apply IH. lia.
  - apply Z.ltb_ge in E. destruct array; [congruence|].
    cbn [List.length] in E. lia.
Qed.

(** C2 (amended): [chunk] tests nothing about [size] and raises no error.
    With [size <= 0] it returns no group for the empty sequence, and for a
    non-empty sequence the loop never reaches its exit, whatever the fuel. *)
Theorem chunk_nonpositive_size (T : Type) (S : list T) (size : Z) :
  size <= 0 ->
  (S = [] -> forall fuel : nat, Utils.chunk (Datatypes.S fuel) S size = Some [])
  /\ (S <> [] -> forall fuel : nat, Utils.chunk fuel S size = None).
Proof.
  intros Hs. split.
  - intros -> fuel. reflexivity.
  - intros HS fuel. unfold Utils.chunk. now apply chunk_loop_stuck.
Qed.

Lemma chunk_nonpositive_size_witness :
  -1 <= 0
  /\ (([7] : list Z) = [] ->
      forall fuel : nat, Utils.chunk (Datatypes.S fuel) [7] (-1) = Some [])
  /\ (([7] : list Z) <> [] ->
      forall fuel : nat, Utils.chunk fuel [7] (-1) = None).
Proof.
  split; [lia|]. apply (chunk_nonpositive_size Z [7] (-1)). lia.
Defined.

(** C2, as stated, fails: with size 0 the empty sequence is chunked without
    any error, and a one-element sequence is never chunked at all. *)
Lemma chunk_zero_size_counterexample :
  Utils.chunk 1 (@nil Z) 0 = Some []
  /\ ~ (exists (fuel : nat) (groups : list (list Z)),
          Utils.chunk fuel [7] 0 = Some groups).
Proof.
  split; [reflexivity|].
  intros (fuel & groups & H).
  unfold Utils.chunk in H.
  rewrite chunk_loop_stuck in H; [discriminate H|lia|discriminate|lia].
Qed.

(** ** The transformer *)

(** C10: the example row with product id 123 gives exactly three records,
    the first with namespace "namespace_1", key "key_1", value "Value 11" and
    description "Key 1 for SKU0001". *)
Theorem transform_example :
  List.length (Utils.transformToMetafields Spec.example_row 123) = 3%nat
  /\ hd_error (Utils.transformToMetafields Spec.example_row 123)
     = Some (Utils.mkMetafield "product" 123 "namespace_1" "key_1" "Value 11"
               "Key 1 for SKU0001" "write_and_sf_access").
Proof.
  split; reflexivity.
Qed.

Lemma split_without_separator (sep : ascii) (s : string) :
  existsb (Ascii.eqb sep) (list_ascii_of_string s) = false ->
  Js.split sep s = [s].
Proof.
  induction s as [|c s IH]; intros H; [reflexivity|].
  cbn [list_ascii_of_string existsb] in H.
  apply orb_false_iff in H. destruct H as [Hc Hs].
  cbn [Js.split]. rewrite (Ascii.eqb_sym c sep), Hc, (IH Hs). reflexivity.
Qed.




(** *** The value check and [trim] *)

Section Trim.

Let nlt (c : ascii) : bool := negb (Js.is_line_terminator c).

Lemma line_terminator_is_space (c : ascii) :
  Js.is_line_terminator c = true -> Js.is_space c = true.
Proof.
  unfold Js.is_line_terminator, Js.is_space.
  intros H. apply orb_true_iff in H.
  destruct H as [H|H]; apply Nat.eqb_eq in H; rewrite H; reflexivity.
Qed.

Lemma not_space_nlt (c : ascii) : Js.is_space c = false -> nlt c = true.
Proof.
  intros H. unfold nlt. destruct (Js.is_line_terminator c) eqn:E; trivial.
  apply line_terminator_is_space in E. congruence.
Qed.

Lemma drop_space_length (l : list ascii) :
  (List.length (Js.drop_space l) <= List.length l)%nat.
Proof.
  induction l as [|c l IH]; [trivial|].
  cbn [Js.drop_space]. destruct (Js.is_space c); cbn [List.length]; lia.
Qed.

Lemma drop_space_fixed (c : ascii) (l : list ascii) :
  Js.drop_space (c :: l) = c :: l <-> Js.is_space c = false.
Proof.
  cbn [Js.drop_space]. destruct (Js.is_space c) eqn:E; split; trivial.
  - intros H. pose proof (drop_space_length l) as Hl.
    rewrite H in Hl. cbn [List.length] in Hl. lia.
  - discriminate.
Qed.

Lemma trim_list_length (l : list ascii) :
  (List.length (Spec.trim_list l) <= List.length (Js.drop_space l))%nat.
Proof.
  unfold Spec.trim_list. rewrite length_rev.
  etransitivity; [apply drop_space_length|]. now rewrite length_rev.
Qed.

(** A non-empty list is its own trimmed form exactly when neither end is
    white space. *)
Lemma trim_list_fixed (c : ascii) (r : list ascii) :
  Spec.trim_list (c :: r) = c :: r
  <-> Js.is_space c = false /\ Js.is_space (last r c) = false.
Proof.
  assert (Hrev : exists m, rev (c :: r) = last r c :: m).
  { destruct (exists_last (l := c :: r)) as (m & x & E); [discriminate|].
    exists (rev m). rewrite E, rev_app_distr. cbn. f_equal.
    destruct r as [|y r].
    - destruct m; inversion E; subst; trivial. destruct m; discriminate.
    - change (last (y :: r) c) with (last (c :: y :: r) c).
      now rewrite E, last_last. }
  destruct Hrev as (m & Hm).
  split.
  - intros H.
    assert (Hc : Js.is_space c = false).
    { destruct (Js.is_space c) eqn:E; trivial.
      pose proof (trim_list_length (c :: r)) as Hl. rewrite H in Hl.
      cbn [Js.drop_space] in Hl. rewrite E in Hl.
      pose proof (drop_space_length r). cbn [List.length] in Hl. lia. }
    split; [exact Hc|].
    unfold Spec.trim_list in H.
    rewrite (proj2 (drop_space_fixed c r) Hc) in H.
    apply (f_equal (@rev ascii)) in H. rewrite rev_involutive in H.
    rewrite Hm in H. now apply drop_space_fixed in H.
  - intros [Hc Hl]. unfold Spec.trim_list.
    rewrite (proj2 (drop_space_fixed c r) Hc), Hm.
    rewrite (proj2 (drop_space_fixed _ m) Hl), <- Hm.
    apply rev_involutive.
Qed.

Lemma forallb_ends (c : ascii) (r : list ascii) :
  r <> [] ->
  Js.is_space c = false -> Js.is_space (last r c) = false ->
  forallb nlt (c :: r) = forallb nlt (removelast r).
Proof.
  intros Hr Hc Hl.
  destruct (exists_last Hr) as (m & x & E). subst r.
  rewrite last_last in Hl. rewrite removelast_last.
  cbn [forallb]. rewrite forallb_app. cbn [forallb].
  rewrite (not_space_nlt c Hc), (not_space_nlt x Hl).
  now rewrite andb_true_r.
Qed.

Lemma trim_eq (v : string) :
  Js.trim v = v <-> Spec.trim_list (list_ascii_of_string v) = list_ascii_of_string v.
Proof.
  unfold Js.trim. fold (Spec.trim_list (list_ascii_of_string v)). split.
  - intros H. rewrite <- H at 2. now rewrite list_ascii_of_string_of_list_ascii.
  - intros H. rewrite H. apply string_of_list_ascii_of_string.
Qed.

(** The value check accepts exactly the non-empty single-line values that
    are their own trimmed form. *)
Lemma value_allows_spec (v : string) :
  Utils.value_allows v = Spec.already_trimmed v.
Proof.
  apply eq_true_iff_eq.
  unfold Utils.value_allows, Spec.already_trimmed, Utils.trim_preformatted,
    Spec.single_line.
  fold nlt.
  rewrite !andb_true_iff, negb_true_iff, String.eqb_eq, String.eqb_neq,
    trim_eq, Nat.ltb_lt.
  destruct v as [|c v]; [cbn; intuition (discriminate || lia || congruence)|].
  cbn [list_ascii_of_string String.length].
  rewrite trim_list_fixed.
  destruct (list_ascii_of_string v) as [|y r] eqn:E.
  - cbn [last forallb]. rewrite andb_true_r, negb_true_iff.
    split.
    + intros [Hc _]. repeat split; try discriminate; trivial.
      now apply not_space_nlt.
    + intros [[_ [Hc _]] _]. split; [trivial|lia].
  - rewrite !andb_true_iff, !negb_true_iff. split.
    + intros [[[Hc Hm] Hl] _]. repeat split; try discriminate; trivial.
      rewrite forallb_ends; trivial. discriminate.
    + intros [[_ [Hc Hl]] Hall]. split; [|lia]. repeat split; trivial.
      rewrite <- (forallb_ends c (y :: r)); trivial. discriminate.
Qed.

End Trim.




(** ** File selection of the create script *)

Lemma insert_sorted_perm (x : string) (l : list string) :
  Permutation (Js.insert_sorted x l) (x :: l).
Proof.
  induction l as [|y l IH]; [reflexivity|].
  cbn [Js.insert_sorted]. destruct (String.leb x y); [reflexivity|].
  rewrite IH. apply perm_swap.
Qed.

Lemma sort_perm (l : list string) : Permutation (Js.sort l) l.
Proof.
  induction l as [|x l IH]; [reflexivity|].
  cbn [Js.sort]. rewrite insert_sorted_perm. now constructor.
Qed.

Lemma insert_sorted_hd (x y : string) (l : list string) :
  Spec.string_le y x -> HdRel Spec.string_le y l ->
  HdRel Spec.string_le y (Js.insert_sorted x l).
Proof.
  intros Hyx Hl. destruct l as [|z l]; cbn [Js.insert_sorted].
  - now constructor.
  - destruct (String.leb x z); constructor; trivial. now inversion Hl.
Qed.

Lemma insert_sorted_sorted (x : string) (l : list string) :
  Sorted Spec.string_le l -> Sorted Spec.string_le (Js.insert_sorted x l).
Proof.
  induction 1 as [|y l Hs IH Hhd]; cbn [Js.insert_sorted].
  - repeat constructor.
  - destruct (String.leb x y) eqn:E.
    + constructor; [now constructor|now constructor].
    + constructor; [exact IH|]. apply insert_sorted_hd; trivial.
      destruct (String.leb_total x y) as [H|H]; [congruence|exact H].
Qed.

Lemma sort_sorted (l : list string) : Sorted Spec.string_le (Js.sort l).
Proof.
  induction l as [|x l IH]; [constructor|].
  cbn [Js.sort]. now apply insert_sorted_sorted.
Qed.

Lemma slice_skip_take (T : Type) (a : list T) (s l : Z) :
  0 <= s -> 0 <= l ->
  Js.slice a s (Some (s + l)) = firstn (Z.to_nat l) (skipn (Z.to_nat s) a).
Proof.
  intros Hs Hl. unfold Js.slice, Js.rel_index.
  set (len := Z.of_nat (List.length a)).
  destruct (s <? 0) eqn:E1; [apply Z.ltb_lt in E1; lia|].
  destruct (s + l <? 0) eqn:E2; [apply Z.ltb_lt in E2; lia|].
  destruct (Z.le_gt_cases s len) as [Hle|Hgt].
  - rewrite (Z.min_l s len) by lia.
    destruct (Z.le_gt_cases (s + l) len) as [Hle'|Hgt'].
    + rewrite Z.min_l by lia. f_equal. lia.
    + rewrite Z.min_r by lia.
      rewrite !firstn_all2; trivial; rewrite length_skipn; lia.
  - rewrite !skipn_all2 by lia. now rewrite !firstn_nil.
Qed.

Lemma slice_skip (T : Type) (a : list T) (s : Z) :
  0 <= s -> Js.slice a s None = skipn (Z.to_nat s) a.
Proof.
  intros Hs. unfold Js.slice, Js.rel_index.
  set (len := Z.of_nat (List.length a)).
  destruct (s <? 0) eqn:E1; [apply Z.ltb_lt in E1; lia|].
  destruct (Z.le_gt_cases s len) as [Hle|Hgt].
  - rewrite Z.min_l by lia. apply firstn_all2. rewrite length_skipn. lia.
  - rewrite !skipn_all2 by lia. apply firstn_nil.
Qed.

(** C5 (amended): for a skip count and a limit that are not negative, the
    create script takes the files ending in ".csv", sorted by code units,
    drops the first [skip] of them, and with a limit of one or more keeps at
    most [limit] of the rest; a limit of 0 counts as no limit and keeps all
    of the rest. *)
Theorem select_files_skip_limit (options : Types.ProgramOptions)
  (files : list string) (skip limit : Z) :
  Types.skip options = Some skip ->
  Types.limit options = Some limit ->
  0 <= skip -> 0 <= limit ->
  exists sorted : list string,
    Permutation sorted (Spec.eligible files)
    /\ Sorted Spec.string_le sorted
    /\ Create.select_files options files
       = if limit =? 0
         then skipn (Z.to_nat skip) sorted
         else firstn (Z.to_nat limit) (skipn (Z.to_nat skip) sorted).
Proof.
  intros Hskip Hlimit Hs Hl.
  exists (Js.sort (Spec.eligible files)).
  split; [apply sort_perm|]. split; [apply sort_sorted|].
  unfold Create.select_files. rewrite Hskip, Hlimit.
  fold (Spec.eligible files).
  assert (Hor : Js.num_or (Some skip) 0 = skip).
  { cbn. destruct (skip =? 0) eqn:E; trivial. apply Z.eqb_eq in E. lia. }
  rewrite Hor. cbn [Js.truthy_num].
  destruct (limit =? 0) eqn:E; cbn [negb].
  - now apply slice_skip.
  - now apply slice_skip_take.
Qed.

Lemma select_files_skip_limit_witness :
  Types.skip (Types.mkProgramOptions None None None (Some 1) (Some 2) None)
  = Some 1
  /\ Types.limit (Types.mkProgramOptions None None None (Some 1) (Some 2) None)
     = Some 2
  /\ 0 <= 1 /\ 0 <= 2
  /\ exists sorted : list string,
       Permutation sorted
         (Spec.eligible ["d.csv"; "a.csv"; "notes.txt"; "c.csv"; "b.csv"])
       /\ Sorted Spec.string_le sorted
       /\ Create.select_files
            (Types.mkProgramOptions None None None (Some 1) (Some 2) None)
            ["d.csv"; "a.csv"; "notes.txt"; "c.csv"; "b.csv"]
          = if 2 =? 0
            then skipn (Z.to_nat 1) sorted
            else firstn (Z.to_nat 2) (skipn (Z.to_nat 1) sorted).
Proof.
  split; [reflexivity|]. split; [reflexivity|].
  split; [lia|]. split; [lia|].
  apply (select_files_skip_limit
           (Types.mkProgramOptions None None None (Some 1) (Some 2) None)
           ["d.csv"; "a.csv"; "notes.txt"; "c.csv"; "b.csv"] 1 2);
    [reflexivity|reflexivity|lia|lia].
Defined.

(** C5, as stated, fails: with a limit of 0 the script selects every file
    after the skipped ones, not none. *)
Lemma select_files_zero_limit_counterexample :
  Create.select_files
    (Types.mkProgramOptions None None None (Some 0) (Some 0) None)
    ["b.csv"; "a.csv"]
  = ["a.csv"; "b.csv"]
  /\ firstn (Z.to_nat 0) (skipn (Z.to_nat 0) (Js.sort (Spec.eligible ["b.csv"; "a.csv"])))
     = [].
Proof.
  split; reflexivity.
Qed.

(** ** The scripts *)

(** *** Stepping through the monad *)

Section Steps.

Context {E L : Type}.

Lemma bind_ret {A B : Type} (m : Effects.M E L A) (f : A -> Effects.M E L B)
  (s s' : Effects.state E L) (a : A) :
  m s = (s', Effects.Ret a) -> Effects.bind m f s = f a s'.
Proof.
  intros H. unfold Effects.bind. now rewrite H.
Qed.

Lemma for_each_continue {A : Type} (body : A -> Effects.M E L unit)
  (x : A) (rest : list A) (s s' : Effects.state E L) :
  body x s = (s', Effects.Ret tt) ->
  Effects.for_each (x :: rest) body s = Effects.for_each rest body s'.
Proof.
  intros H. cbn [Effects.for_each]. unfold Effects.bind. now rewrite H.
Qed.

Variable bad : E -> bool.


Lemma clean_snoc (t : list E) (e : E) :
  Effects.clean bad t -> bad e = false -> Effects.clean bad (t ++ [e]).
Proof.
  unfold Effects.clean. intros Ht He. rewrite existsb_app, Ht. cbn. now rewrite He.
Qed.

Lemma quiet_ret {A : Type} (a : A) : Effects.quiet bad (Effects.ret (E := E) (L := L) a).
Proof. intros s H. exact H. Qed.

Lemma quiet_throw {A : Type} (msg : string) : Effects.quiet bad (@Effects.throw E L A msg).
Proof. intros s H. exact H. Qed.

Lemma quiet_exit {A : Type} (code : Z) : Effects.quiet bad (@Effects.exit E L A code).
Proof. intros s H. exact H. Qed.

Lemma quiet_diverge {A : Type} : Effects.quiet bad (@Effects.diverge E L A).
Proof. intros s H. exact H. Qed.

Lemma quiet_get_locals : Effects.quiet bad (@Effects.get_locals E L).
Proof. intros s H. exact H. Qed.

Lemma quiet_modify (f : L -> L) : Effects.quiet bad (Effects.modify (E := E) f).
Proof. intros s H. exact H. Qed.

Lemma quiet_emit (e : E) : bad e = false -> Effects.quiet bad (Effects.emit (L := L) e).
Proof. intros He s H. cbn. now apply clean_snoc. Qed.

Lemma quiet_call {A : Type} (e : E) (answer : list E -> Effects.result A) :
  bad e = false -> Effects.quiet bad (Effects.call (L := L) e answer).
Proof.
  intros He s H. unfold Effects.call.
  destruct (answer (Effects.trace s)); cbn; now apply clean_snoc.
Qed.

Lemma quiet_bind {A B : Type} (m : Effects.M E L A)
  (f : A -> Effects.M E L B) :
  Effects.quiet bad m -> (forall a, Effects.quiet bad (f a)) -> Effects.quiet bad (Effects.bind m f).
Proof.
  intros Hm Hf s H. unfold Effects.bind.
  specialize (Hm s H). destruct (m s) as [s' [a|msg|code|]]; cbn in *; trivial.
  now apply Hf.
Qed.

Lemma quiet_try_catch {A : Type} (m : Effects.M E L A)
  (h : string -> Effects.M E L A) :
  Effects.quiet bad m -> (forall msg, Effects.quiet bad (h msg)) -> Effects.quiet bad (Effects.try_catch m h).
Proof.
  intros Hm Hh s H. unfold Effects.try_catch.
  specialize (Hm s H). destruct (m s) as [s' [a|msg|code|]]; cbn in *; trivial.
  now apply Hh.
Qed.

Lemma quiet_for_each {A : Type} (xs : list A)
  (body : A -> Effects.M E L unit) :
  (forall x, Effects.quiet bad (body x)) -> Effects.quiet bad (Effects.for_each xs body).
Proof.
  intros Hb. induction xs as [|x xs IH]; cbn [Effects.for_each].
  - apply quiet_ret.
  - apply quiet_bind; trivial.
Qed.

End Steps.

(** *** Dry runs *)

Create HintDb quiet.

#[local] Hint Resolve quiet_ret quiet_throw quiet_exit quiet_diverge
  quiet_get_locals quiet_modify : quiet.

Ltac quiet_step :=
  cbv zeta;
  first
    [ apply quiet_bind; [|intros ?]
    | apply quiet_try_catch; [|intros ?]
    | apply quiet_for_each; intros ?
    | apply quiet_emit; reflexivity
    | apply quiet_call; reflexivity
    | solve [auto with quiet] ].

Section CreateDryRun.

Variable world : Create.World.
Variable options : Types.ProgramOptions.
Hypothesis Hdry : Types.is_dryRun options = true.

Lemma readCSVFiles_quiet :
  Effects.quiet Create.is_mutating (Create.readCSVFiles world options).
Proof.
  unfold Create.readCSVFiles. quiet_step; [quiet_step|].
  destruct (Create.select_files options a); repeat quiet_step.
Qed.

Lemma process_row_quiet (fuel : nat) (client : option Client.t)
  (row : Utils.Row) :
  Effects.quiet Create.is_mutating
    (Create.process_row world options fuel client row).
Proof.
  unfold Create.process_row.
  destruct (Js.parseInt (Utils.get row "id")) as [productId|]; [|quiet_step].
  destruct (productId =? 0); [quiet_step|].
  rewrite Hdry. cbn [negb andb]. repeat quiet_step.
Qed.

Lemma processAllFiles_quiet (fuel : nat) (client : option Client.t) :
  Effects.quiet Create.is_mutating
    (Create.processAllFiles world options fuel client).
Proof.
  unfold Create.processAllFiles, Create.process_file.
  quiet_step; [quiet_step|]. cbv zeta.
  quiet_step; [quiet_step|].
  quiet_step; [|repeat quiet_step].
  quiet_step. quiet_step; [quiet_step|].
  quiet_step. apply process_row_quiet.
Qed.

Lemma create_main_quiet (fuel : nat) :
  Effects.quiet Create.is_mutating (Create.main world options fuel).
Proof.
  unfold Create.main, Create.getStoreInfo.
  quiet_step; [|repeat quiet_step].
  quiet_step; [destruct (Types.has_credentials options); repeat quiet_step|].
  quiet_step; [apply readCSVFiles_quiet|apply processAllFiles_quiet].
Qed.

End CreateDryRun.

Section DeleteDryRun.

Variable world : Delete.World.
Variable options : Types.DeleteOptions.
Hypothesis Hdry : Types.is_dryRun (Types.program options) = true.

Lemma fetch_loop_quiet (yielded : list Delete.RawItem)
  (failure : option string) :
  forall items,
    Effects.quiet Delete.is_mutating
      (Delete.fetch_loop options yielded failure items).
Proof.
  induction yielded as [|item rest IH]; intros items; cbn [Delete.fetch_loop].
  - destruct failure; quiet_step.
  - match goal with |- context [if ?c then _ else _] => destruct c end;
      [quiet_step|apply IH].
Qed.

Lemma fetchMetafields_quiet (client : Client.t) :
  Effects.quiet Delete.is_mutating
    (Delete.fetchMetafields world options client).
Proof.
  unfold Delete.fetchMetafields.
  quiet_step; [|repeat quiet_step].
  quiet_step; [quiet_step|].
  quiet_step; [apply fetch_loop_quiet|].
  destruct a0; repeat quiet_step.
Qed.

Lemma delete_main_quiet (fuel : nat) :
  Effects.quiet Delete.is_mutating (Delete.main world options fuel).
Proof.
  unfold Delete.main, Delete.getStoreInfo. rewrite Hdry.
  quiet_step; [|repeat quiet_step].
  quiet_step;
    [destruct (Types.has_credentials (Types.program options));
     repeat quiet_step|].
  quiet_step; [quiet_step|].
  destruct a as [client|]; [|quiet_step].
  quiet_step; [apply fetchMetafields_quiet|].
  destruct a; repeat quiet_step.
Qed.

End DeleteDryRun.

(** C8: when the dry-run flag is set (or left to its default), the trace of
    the create script holds no [Post] and the trace of the delete script
    holds no [DeleteCall], whatever the files, the remote answers and the
    fuel, that is, however far the run has got. *)
Theorem dry_run_no_mutation
  (cworld : Create.World) (copts : Types.ProgramOptions)
  (dworld : Delete.World) (dopts : Types.DeleteOptions) (fuel : nat) :
  Types.is_dryRun (Types.default_dryRun copts) = true ->
  Types.is_dryRun (Types.default_dryRun (Types.program dopts)) = true ->
  existsb Create.is_mutating
    (Effects.trace (fst (Create.script cworld copts fuel Create.init))) = false
  /\ existsb Delete.is_mutating
       (Effects.trace (fst (Delete.script dworld dopts fuel Delete.init)))
     = false.
Proof.
  intros Hc Hd. split.
  - unfold Create.script. rewrite Hc. cbn [negb andb].
    now apply create_main_quiet.
  - unfold Delete.script. cbn [Delete.with_program Types.program].
    rewrite Hd. cbn [negb andb].
    match goal with |- context [if ?c then _ else _] => destruct c end.
    + reflexivity.
    + now apply delete_main_quiet.
Qed.

Lemma dry_run_no_mutation_witness :
  Types.is_dryRun (Types.default_dryRun Spec.dry_options) = true
  /\ Types.is_dryRun
       (Types.default_dryRun (Types.program (Spec.by_key Spec.dry_options)))
     = true
  /\ existsb Create.is_mutating
       (Effects.trace
          (fst (Create.script
                  (Spec.one_file [Spec.example_row] (fun _ => true))
                  Spec.dry_options 5 Create.init))) = false
  /\ existsb Delete.is_mutating
       (Effects.trace
          (fst (Delete.script
                  (Spec.delete_world [Spec.listed 1; Spec.listed 2]
                     (fun _ => true))
                  (Spec.by_key Spec.dry_options) 5 Delete.init))) = false.
Proof.
  split; [reflexivity|]. split; [reflexivity|].
  apply (dry_run_no_mutation
           (Spec.one_file [Spec.example_row] (fun _ => true))
           Spec.dry_options
           (Spec.delete_world [Spec.listed 1; Spec.listed 2] (fun _ => true))
           (Spec.by_key Spec.dry_options) 5); reflexivity.
Defined.

(** *** Rows without a product id *)

Lemma post_loop_totalProducts (world : Create.World) (row : Utils.Row)
  (productId : Z) (metafields : list Utils.Metafield) (n : Z) :
  forall (fuel : nat) (i : Z)
         (s : Effects.state Create.event Create.Counters),
    Create.totalProducts
      (Effects.locals
         (fst (Create.post_loop world fuel row productId metafields n i s)))
    = Create.totalProducts (Effects.locals s).
Proof.
  induction fuel as [|fuel IH]; intros i s; [reflexivity|].
  cbn [Create.post_loop].
  destruct (i <? Z.of_nat (List.length metafields)); [|reflexivity].
  unfold Effects.bind at 1. unfold Effects.call.
  destruct (Create.post world (Effects.trace s) _) as [[]|msg];
    [|reflexivity].
  unfold Effects.bind at 1. cbn [Effects.modify].
  unfold Effects.bind at 1. cbn [Effects.emit Effects.trace Effects.locals].
  now rewrite IH.
Qed.

(** C6 (amended): a row whose [id] is missing or parses to [NaN] or to 0 is
    skipped: the state of the run (trace and counters) is unchanged, and the
    loop goes on with the next row.  A row whose [id] parses to any other
    integer, a negative one included, is counted as a processed product. *)
Theorem falsy_id_row_skipped (world : Create.World)
  (options : Types.ProgramOptions) (fuel : nat) (client : option Client.t)
  (row : Utils.Row) (rest : list Utils.Row)
  (s : Effects.state Create.event Create.Counters) :
  (Js.parseInt (Utils.get row "id") = None
   \/ Js.parseInt (Utils.get row "id") = Some 0 ->
   Create.process_row world options fuel client row s = (s, Effects.Ret tt)
   /\ Effects.for_each (row :: rest)
        (Create.process_row world options fuel client) s
      = Effects.for_each rest (Create.process_row world options fuel client) s)
  /\ (forall productId : Z,
        Js.parseInt (Utils.get row "id") = Some productId ->
        productId <> 0 ->
        Create.totalProducts
          (Effects.locals
             (fst (Create.process_row world options fuel client row s)))
        = S (Create.totalProducts (Effects.locals s))).
Proof.
  split.
  - intros H.
    assert (Hrow : Create.process_row world options fuel client row s
                   = (s, Effects.Ret tt)).
    { unfold Create.process_row. destruct H as [-> | ->]; reflexivity. }
    split; [exact Hrow|]. now apply for_each_continue.
  - intros productId Hid Hnz. unfold Create.process_row. rewrite Hid.
    destruct (productId =? 0) eqn:E; [apply Z.eqb_eq in E; contradiction|].
    unfold Effects.bind at 1. cbn [Effects.modify].
    match goal with |- context [if ?c then _ else _] => destruct c end.
    + unfold Create.submit_row, Effects.try_catch.
      match goal with
      | |- context [Create.post_loop ?w ?f ?r ?p ?m ?n ?i ?st] =>
          pose proof (post_loop_totalProducts w r p m n f i st) as Hloop;
          destruct (Create.post_loop w f r p m n i st) as [s' [[]|msg|code|]]
      end; cbn [fst Effects.locals Create.count_product Create.count_error
                  Create.totalProducts Effects.bind Effects.modify
                  Effects.emit] in *;
        try exact Hloop.
    + destruct (Types.is_dryRun options); reflexivity.
Qed.

Lemma falsy_id_row_skipped_witness :
  (Js.parseInt (Utils.get [("id", "abc"); ("a.b", "x")] "id") = None
   \/ Js.parseInt (Utils.get [("id", "abc"); ("a.b", "x")] "id") = Some 0)
  /\ Create.process_row (Spec.one_file [] (fun _ => true))
       (Spec.live_options 50) 5 (Some Spec.the_client)
       [("id", "abc"); ("a.b", "x")] Create.init
     = (Create.init, Effects.Ret tt)
  /\ Js.parseInt (Utils.get [("id", "-5"); ("a.b", "x")] "id") = Some (-5)
  /\ -5 <> 0
  /\ Create.totalProducts
       (Effects.locals
          (fst (Create.process_row (Spec.one_file [] (fun _ => true))
                  (Spec.live_options 50) 5 (Some Spec.the_client)
                  [("id", "-5"); ("a.b", "x")] Create.init)))
     = S (Create.totalProducts (Effects.locals Create.init)).
Proof.
  split; [left; reflexivity|].
  split.
  - exact (proj1 (proj1 (falsy_id_row_skipped
                           (Spec.one_file [] (fun _ => true))
                           (Spec.live_options 50) 5 (Some Spec.the_client)
                           [("id", "abc"); ("a.b", "x")] [] Create.init)
                    (or_introl eq_refl))).
  - split; [reflexivity|]. split; [discriminate|].
    apply (proj2 (falsy_id_row_skipped (Spec.one_file [] (fun _ => true))
                    (Spec.live_options 50) 5 (Some Spec.the_client)
                    [("id", "-5"); ("a.b", "x")] [] Create.init) (-5));
      [reflexivity|discriminate].
Defined.

(** C6, as stated, fails: the id "-5" is no positive integer, and the row is
    counted and submitted. *)
Lemma negative_id_row_counterexample :
  Js.parseInt (Some "-5") = Some (-5)
  /\ Create.script (Spec.one_file [[("id", "-5"); ("a.b", "x")]] (fun _ => true))
       (Spec.live_options 50) 5 Create.init
     = (Effects.mkState
          [Create.GetStore; Create.ReadDir; Create.ReadFile "products.csv";
           Create.ReadDir; Create.ReadFile "products.csv";
           Create.Post
             [Utils.mkMetafield "product" (-5) "a" "b" "x" "B for product_-5"
                "write_and_sf_access"];
           Create.LogCreated 1 (-5) None;
           Create.LogSummary (Create.mkCounters 1 1 1 0)]
          (Create.mkCounters 1 1 1 0),
        Effects.Ret tt).
Proof.
  split; reflexivity.
Qed.

(** *** Submission failures *)

Lemma posts_app (t1 t2 : list Create.event) :
  Create.posts (t1 ++ t2) = Create.posts t1 ++ Create.posts t2.
Proof.
  induction t1 as [|e t1 IH]; [reflexivity|].
  destruct e; cbn [Create.posts app]; now rewrite ?IH.
Qed.

Lemma deletes_app (t1 t2 : list Delete.event) :
  Delete.deletes (t1 ++ t2) = Delete.deletes t1 ++ Delete.deletes t2.
Proof.
  induction t1 as [|e t1 IH]; [reflexivity|].
  destruct e; cbn [Delete.deletes app]; now rewrite ?IH.
Qed.

Section CreateSubmission.

Variable world : Create.World.
Variable row : Utils.Row.
Variable productId : Z.
Variable n : Z.
Hypothesis Hn : 1 <= n.

(** The batch loop, entered at the end of a prefix, submits the expected
    groups of the rest in order, up to and including the first one that is
    rejected, and leaves the error counter alone. *)
Lemma post_loop_prefix :
  forall (fuel : nat) (rest pre : list Utils.Metafield) (i : Z)
         (s : Effects.state Create.event Create.Counters),
    (List.length rest < fuel)%nat ->
    Z.of_nat (List.length pre) <= i ->
    (rest <> [] -> i = Z.of_nat (List.length pre)) ->
    exists (s' : Effects.state Create.event Create.Counters) (k : nat),
      Create.posts (Effects.trace s')
      = Create.posts (Effects.trace s)
        ++ firstn k (Spec.chunks_aux (List.length rest) (Z.to_nat n) rest)
      /\ Create.errorCount (Effects.locals s')
         = Create.errorCount (Effects.locals s)
      /\ ((Create.post_loop world fuel row productId (pre ++ rest) n i s
           = (s', Effects.Ret tt)
           /\ k = List.length
                    (Spec.chunks_aux (List.length rest) (Z.to_nat n) rest))
          \/ (exists msg,
                Create.post_loop world fuel row productId (pre ++ rest) n i s
                = (s', Effects.Throw msg)
                /\ (1 <= k <= List.length
                      (Spec.chunks_aux (List.length rest) (Z.to_nat n) rest))%nat)).
Proof.
  induction fuel as [|fuel IH]; intros rest pre i s Hf Hi Hrest; [lia|].
  destruct rest as [|x rest].
  - exists s, 0%nat. rewrite app_nil_r in *. cbn [Spec.chunks_aux firstn].
    rewrite app_nil_r. repeat split. left. split; [|reflexivity].
    cbn [Create.post_loop].
    destruct (i <? Z.of_nat (List.length pre)) eqn:E; [|reflexivity].
    apply Z.ltb_lt in E. lia.
  - assert (i = Z.of_nat (List.length pre)) as ->
        by (apply Hrest; discriminate).
    set (g := firstn (Z.to_nat n) (x :: rest)).
    set (rest' := skipn (Z.to_nat n) (x :: rest)).
    assert (Hsplit : x :: rest = g ++ rest')
      by (symmetry; apply firstn_skipn).
    assert (Hlen : (List.length rest' <= List.length rest)%nat).
    { subst rest'. rewrite length_skipn. cbn [List.length]. lia. }
    assert (Hchunks : Spec.chunks_aux (List.length (x :: rest)) (Z.to_nat n)
                        (x :: rest)
                      = g :: Spec.chunks_aux (List.length rest') (Z.to_nat n)
                               rest').
    { cbn [Spec.chunks_aux List.length]. fold g. fold rest'. f_equal.
      apply chunks_aux_fuel; lia. }
    set (s1 := Effects.mkState (Effects.trace s ++ [Create.Post g])
                 (Effects.locals s)).
    set (s3 := Effects.mkState
                 ((Effects.trace s ++ [Create.Post g])
                  ++ [Create.LogCreated (List.length g) productId
                        (Utils.get row "sku")])
                 (Create.count_success (List.length g) (Effects.locals s))).
    assert (Hloop :
      Create.post_loop world (S fuel) row productId (pre ++ x :: rest) n
        (Z.of_nat (List.length pre)) s
      = match Create.post world (Effects.trace s) g with
        | Effects.Ok _ =>
            Create.post_loop world fuel row productId ((pre ++ g) ++ rest')
              n (Z.of_nat (List.length pre) + n) s3
        | Effects.Err msg => (s1, Effects.Throw msg)
        end).
    { cbn [Create.post_loop].
      destruct (_ <? _) eqn:E.
      2:{ apply Z.ltb_ge in E. rewrite length_app in E.
          cbn [List.length] in E. lia. }
      rewrite slice_from_prefix by lia. fold g.
      unfold Effects.bind at 1. unfold Effects.call.
      destruct (Create.post world (Effects.trace s) g) as [[]|msg];
        [|reflexivity].
      rewrite Hsplit, app_assoc. reflexivity. }
    rewrite Hloop, Hchunks. clear Hloop.
    destruct (Create.post world (Effects.trace s) g) as [[]|msg].
    + destruct (IH rest' (pre ++ g) (Z.of_nat (List.length pre) + n) s3)
        as (s' & k & Hposts & Herr & Hres).
      * cbn [List.length] in Hf. lia.
      * rewrite length_app. subst g. rewrite length_firstn.
        cbn [List.length]. lia.
      * intros Hne. rewrite length_app. subst g. rewrite length_firstn.
        destruct (Nat.le_gt_cases (Z.to_nat n) (List.length (x :: rest)))
          as [Hle|Hgt].
        -- rewrite Nat.min_l by trivial. lia.
        -- exfalso. apply Hne. subst rest'. apply skipn_all2. lia.
      * exists s', (S k). split; [|split].
        -- rewrite Hposts. subst s3. cbn [Effects.trace].
           rewrite !posts_app. cbn [Create.posts firstn].
           now rewrite app_nil_r, <- app_assoc.
        -- rewrite Herr. reflexivity.
        -- destruct Hres as [[Hret Hk]|(msg & Hthrow & Hk)].
           ++ left. split; [exact Hret|cbn [List.length]; lia].
           ++ right. exists msg.
              split; [exact Hthrow|cbn [List.length]; lia].
    + exists s1, 1%nat. split; [|split].
      * subst s1. cbn [Effects.trace firstn]. rewrite posts_app. reflexivity.
      * reflexivity.
      * right. exists msg. split; [reflexivity|cbn [List.length]; lia].
Qed.

End CreateSubmission.

Lemma chunk_some (T : Type) (l : list T) (n : Z) (fuel : nat) :
  1 <= n -> (List.length l < fuel)%nat ->
  Utils.chunk fuel l n
  = Some (Spec.chunks_aux (List.length l) (Z.to_nat n) l).
Proof.
  intros Hn Hf. unfold Utils.chunk.
  apply (chunk_loop_chunks n Hn fuel l [] 0 []);
    [trivial|simpl; lia|reflexivity].
Qed.

(** The [try] statement of a row: it always completes; the batches go out
    in order up to the first rejected one, which is the last to go out and
    is counted and logged once. *)
Lemma submit_row_isolated (world : Create.World)
  (options : Types.ProgramOptions) (fuel : nat) (row : Utils.Row)
  (productId : Z) (metafields : list Utils.Metafield)
  (s : Effects.state Create.event Create.Counters) :
  1 <= Js.num_or (Types.batchSize options) 50 ->
  (List.length metafields < fuel)%nat ->
  exists (batches : list (list Utils.Metafield))
         (s' : Effects.state Create.event Create.Counters) (k : nat),
    Utils.chunk fuel metafields (Js.num_or (Types.batchSize options) 50)
    = Some batches
    /\ Create.submit_row world options fuel row productId metafields s
       = (s', Effects.Ret tt)
    /\ Create.posts (Effects.trace s')
       = Create.posts (Effects.trace s) ++ firstn k batches
    /\ ((k = List.length batches
         /\ Create.errorCount (Effects.locals s')
            = Create.errorCount (Effects.locals s))
        \/ ((1 <= k <= List.length batches)%nat
            /\ Create.errorCount (Effects.locals s')
               = S (Create.errorCount (Effects.locals s))
            /\ exists msg t,
                 Effects.trace s'
                 = t ++ [Create.LogError productId (Utils.get row "sku") msg])).
Proof.
  intros Hn Hf.
  set (n := Js.num_or (Types.batchSize options) 50) in *.
  exists (Spec.chunks_aux (List.length metafields) (Z.to_nat n) metafields).
  destruct (post_loop_prefix world row productId n Hn fuel metafields [] 0 s)
    as (s1 & k & Hposts & Herr & Hres); [trivial|simpl; lia|reflexivity|].
  cbn [app] in Hres. unfold Create.submit_row, Effects.try_catch. fold n.
  destruct Hres as [[Hret Hk]|(msg & Hthrow & Hk)].
  - exists s1, k. rewrite Hret. split; [now apply chunk_some|].
    split; [reflexivity|]. split; [exact Hposts|]. left. now split.
  - exists (Effects.mkState
              (Effects.trace s1
               ++ [Create.LogError productId (Utils.get row "sku") msg])
              (Create.count_error (Effects.locals s1))), k.
    rewrite Hthrow. split; [now apply chunk_some|].
    split; [reflexivity|]. cbn [Effects.trace Effects.locals]. split.
    + rewrite posts_app, Hposts. cbn [Create.posts]. now rewrite app_nil_r.
    + right. split; [exact Hk|]. split.
      * cbn [Create.count_error Create.errorCount]. now rewrite Herr.
      * now exists msg, (Effects.trace s1).
Qed.

(** With a batch size of one or more and enough fuel, the body of the row
    loop completes, whatever the remote answers. *)
Lemma process_row_returns (world : Create.World)
  (options : Types.ProgramOptions) (fuel : nat) (client : option Client.t)
  (row : Utils.Row) (s : Effects.state Create.event Create.Counters) :
  1 <= Js.num_or (Types.batchSize options) 50 ->
  (List.length row < fuel)%nat ->
  exists s', Create.process_row world options fuel client row s
             = (s', Effects.Ret tt).
Proof.
  intros Hn Hf. unfold Create.process_row.
  destruct (Js.parseInt (Utils.get row "id")) as [productId|];
    [|now exists s].
  destruct (productId =? 0); [now exists s|].
  unfold Effects.bind at 1. cbn [Effects.modify].
  match goal with |- context [if ?c then _ else _] => destruct c end.
  - match goal with
    | |- context [Create.submit_row ?w ?o ?f ?r ?p ?m ?st] =>
        destruct (submit_row_isolated w o f r p m st Hn)
          as (batches & s' & k & _ & Hsub & _)
    end.
    + unfold Utils.transformToMetafields. rewrite length_map.
      eapply Nat.le_lt_trans; [apply filter_length_le|exact Hf].
    + now exists s'.
  - destruct (Types.is_dryRun options); eexists; reflexivity.
Qed.

(** So the row loop of a file runs to its end. *)
Lemma process_rows_return (world : Create.World)
  (options : Types.ProgramOptions) (fuel : nat) (client : option Client.t) :
  1 <= Js.num_or (Types.batchSize options) 50 ->
  forall (rows : list Utils.Row)
         (s : Effects.state Create.event Create.Counters),
    Forall (fun row => (List.length row < fuel)%nat) rows ->
    exists s', Effects.for_each rows
                 (Create.process_row world options fuel client) s
               = (s', Effects.Ret tt).
Proof.
  intros Hn. induction rows as [|row rows IH]; intros s Hrows.
  - now exists s.
  - inversion Hrows as [|? ? Hrow Hrest]; subst.
    destruct (process_row_returns world options fuel client row s Hn Hrow)
      as (s1 & Hs1).
    destruct (IH s1 Hrest) as (s' & Hs').
    exists s'. now rewrite (for_each_continue _ _ _ _ _ Hs1).
Qed.

Section DeleteSubmission.

Variable world : Delete.World.

(** Every batch is submitted, in order, whatever happened to the ones
    before; each is counted as deleted or as failed. *)
Lemma delete_loop_all (total : nat) :
  forall (batches : list (list Delete.ProductMetafield))
         (index success failed : nat)
         (s : Effects.state Delete.event unit),
    exists (s' : Effects.state Delete.event unit) (success' failed' : nat),
      Delete.delete_loop world total batches index success failed s
      = (s', Effects.Ret (success', failed'))
      /\ Delete.deletes (Effects.trace s')
         = Delete.deletes (Effects.trace s)
           ++ map (map Delete.id) batches
      /\ (success' + failed'
          = success + failed + List.length (List.concat batches))%nat.
Proof.
  induction batches as [|batch rest IH]; intros index success failed s.
  - exists s, success, failed. cbn. rewrite app_nil_r. repeat split. lia.
  - cbn [Delete.delete_loop].
    unfold Effects.bind at 1. cbn [Effects.emit].
    unfold Effects.bind at 1. unfold Effects.try_catch.
    unfold Effects.bind at 1. unfold Effects.call.
    cbn [Effects.trace Effects.locals].
    destruct (Delete.delete world _ (map Delete.id batch)) as [[]|msg].
    + cbn -[Delete.delete_loop].
      match goal with
      | |- context [Delete.delete_loop world total rest ?i ?a ?b ?st] =>
          destruct (IH i a b st) as (s' & a' & b' & Hrun & Hdel & Hsum)
      end.
      exists s', a', b'. split; [exact Hrun|]. split.
      * rewrite Hdel. cbn [Effects.trace]. rewrite !deletes_app.
        cbn [Delete.deletes map]. rewrite !app_nil_r, <- app_assoc.
        reflexivity.
      * rewrite Hsum. cbn [List.concat]. rewrite length_app. lia.
    + cbn -[Delete.delete_loop].
      match goal with
      | |- context [Delete.delete_loop world total rest ?i ?a ?b ?st] =>
          destruct (IH i a b st) as (s' & a' & b' & Hrun & Hdel & Hsum)
      end.
      exists s', a', b'. split; [exact Hrun|]. split.
      * rewrite Hdel. cbn [Effects.trace]. rewrite !deletes_app.
        cbn [Delete.deletes map]. rewrite !app_nil_r, <- app_assoc.
        reflexivity.
      * rewrite Hsum. cbn [List.concat]. rewrite length_app. lia.
Qed.

End DeleteSubmission.

Section FirstRejection.

Variable world : Create.World.
Variable row : Utils.Row.
Variable productId : Z.

(** The batch loop does to the records what [first_rejection] does to
    their groups. *)
Lemma post_loop_first_rejection (n : Z) (Hn : 1 <= n) :
  forall (fuel : nat) (rest pre : list Utils.Metafield) (i : Z)
         (s : Effects.state Create.event Create.Counters),
    (List.length rest < fuel)%nat ->
    Z.of_nat (List.length pre) <= i ->
    (rest <> [] -> i = Z.of_nat (List.length pre)) ->
    Create.post_loop world fuel row productId (pre ++ rest) n i s
    = match Spec.first_rejection world row productId
              (Spec.chunks_aux (List.length rest) (Z.to_nat n) rest) s with
      | (s', None) => (s', Effects.Ret tt)
      | (s', Some msg) => (s', Effects.Throw msg)
      end.
Proof.
  induction fuel as [|fuel IH]; intros rest pre i s Hf Hi Hrest; [lia|].
  destruct rest as [|x rest].
  - rewrite app_nil_r. cbn [Spec.chunks_aux List.length Spec.first_rejection
                              Create.post_loop].
    destruct (i <? Z.of_nat (List.length pre)) eqn:E; [|reflexivity].
    apply Z.ltb_lt in E. lia.
  - assert (i = Z.of_nat (List.length pre)) as ->
        by (apply Hrest; discriminate).
    set (g := firstn (Z.to_nat n) (x :: rest)).
    set (rest' := skipn (Z.to_nat n) (x :: rest)).
    assert (Hlen : (List.length rest' <= List.length rest)%nat).
    { subst rest'. rewrite length_skipn. cbn [List.length]. lia. }
    assert (Hchunks : Spec.chunks_aux (List.length (x :: rest)) (Z.to_nat n)
                        (x :: rest)
                      = g :: Spec.chunks_aux (List.length rest') (Z.to_nat n)
                               rest').
    { cbn [Spec.chunks_aux List.length]. fold g. fold rest'. f_equal.
      apply chunks_aux_fuel; lia. }
    rewrite Hchunks. cbn [Spec.first_rejection Create.post_loop].
    destruct (_ <? _) eqn:E.
    2:{ apply Z.ltb_ge in E. rewrite length_app in E.
        cbn [List.length] in E. lia. }
    rewrite slice_from_prefix by lia. fold g.
    unfold Effects.bind at 1. unfold Effects.call.
    destruct (Create.post world (Effects.trace s) g) as [[]|msg];
      [|reflexivity].
    replace (pre ++ x :: rest) with ((pre ++ g) ++ rest')
      by (rewrite <- (app_assoc pre); subst g rest';
          now rewrite firstn_skipn).
    apply IH.
    + cbn [List.length] in Hf. lia.
    + rewrite length_app. subst g. rewrite length_firstn.
      cbn [List.length]. lia.
    + intros Hne. rewrite length_app. subst g. rewrite length_firstn.
      destruct (Nat.le_gt_cases (Z.to_nat n) (List.length (x :: rest)))
        as [Hle|Hgt].
      * rewrite Nat.min_l by trivial. lia.
      * exfalso. apply Hne. subst rest'. apply skipn_all2. lia.
Qed.

(** When no batch is rejected, all of them have gone out. *)
Lemma first_rejection_none :
  forall (batches : list (list Utils.Metafield))
         (s s' : Effects.state Create.event Create.Counters),
    Spec.first_rejection world row productId batches s = (s', None) ->
    Create.posts (Effects.trace s')
    = Create.posts (Effects.trace s) ++ batches
    /\ Create.errorCount (Effects.locals s')
       = Create.errorCount (Effects.locals s).
Proof.
  induction batches as [|batch rest IH]; intros s s' H;
    cbn [Spec.first_rejection] in H.
  - inversion H; subst. now rewrite app_nil_r.
  - destruct (Create.post world (Effects.trace s) batch) as [[]|msg];
      [|discriminate H].
    destruct (IH _ _ H) as [Hposts Herr]. split; [|exact Herr].
    rewrite Hposts. cbn [Effects.trace]. rewrite !posts_app.
    cbn [Create.posts]. now rewrite app_nil_r, <- app_assoc.
Qed.

(** When a batch is rejected, it is the last one to have gone out, the
    remote rejected it with the message reported, and the ones before it
    have gone out in order. *)
Lemma first_rejection_some :
  forall (batches : list (list Utils.Metafield))
         (s s' : Effects.state Create.event Create.Counters) (msg : string),
    Spec.first_rejection world row productId batches s = (s', Some msg) ->
    exists (k : nat) (t0 : list Create.event),
      (1 <= k <= List.length batches)%nat
      /\ Effects.trace s' = t0 ++ [Create.Post (nth (k - 1) batches [])]
      /\ Create.post world t0 (nth (k - 1) batches []) = Effects.Err msg
      /\ Create.posts (Effects.trace s')
         = Create.posts (Effects.trace s) ++ firstn k batches
      /\ Create.errorCount (Effects.locals s')
         = Create.errorCount (Effects.locals s).
Proof.
  induction batches as [|batch rest IH]; intros s s' msg H;
    cbn [Spec.first_rejection] in H; [discriminate H|].
  destruct (Create.post world (Effects.trace s) batch) as [[]|msg'] eqn:E.
  - destruct (IH _ _ _ H) as (k & t0 & Hk & Ht & Hpost & Hposts & Herr).
    exists (S k), t0. split; [cbn [List.length]; lia|].
    destruct k as [|k]; [lia|].
    cbn [Nat.sub nth] in *. rewrite Nat.sub_0_r in *.
    split; [exact Ht|]. split; [exact Hpost|]. split; [|exact Herr].
    rewrite Hposts. cbn [Effects.trace]. rewrite !posts_app.
    cbn [Create.posts firstn]. now rewrite app_nil_r, <- app_assoc.
  - inversion H; subst. exists 1%nat, (Effects.trace s).
    split; [cbn [List.length]; lia|].
    cbn [Nat.sub nth Effects.trace Effects.locals firstn].
    split; [reflexivity|]. split; [exact E|]. split; [|reflexivity].
    now rewrite posts_app.
Qed.

End FirstRejection.

(** The batch loop of the delete script does to its batches what
    [delete_accounting] does. *)
Lemma delete_loop_accounting (world : Delete.World) (total : nat) :
  forall (batches : list (list Delete.ProductMetafield))
         (index success failed : nat)
         (s : Effects.state Delete.event unit),
    Delete.delete_loop world total batches index success failed s
    = (fst (Spec.delete_accounting world total batches index s success failed),
       Effects.Ret
         (snd (Spec.delete_accounting world total batches index s success
                 failed))).
Proof.
  induction batches as [|batch rest IH]; intros index success failed s;
    [reflexivity|].
  cbn [Delete.delete_loop Spec.delete_accounting].
  unfold Effects.bind at 1. cbn [Effects.emit].
  unfold Effects.bind at 1. unfold Effects.try_catch.
  unfold Effects.bind at 1. unfold Effects.call.
  cbn [Effects.trace Effects.locals].
  destruct (Delete.delete world _ (map Delete.id batch)) as [[]|msg];
    cbn -[Delete.delete_loop Spec.delete_accounting]; now rewrite IH.
Qed.

(** C7 (amended): with a batch size of one or more, a failed submission
    never aborts the run.  In the delete script the failure is caught per
    batch: every batch is submitted in order, and its records are counted
    as deleted when the remote accepts the request and as failed when it
    rejects it.  In the create script the failure is caught per row: the
    batches of the row go out in order up to the first one the remote
    rejects, that one is the last to go out, the error is counted and logged
    once with the remote's message, the later batches of that row are not
    submitted, and the row loop of every file runs to its end, so that the
    next row and the next file are processed. *)
Theorem submission_failure_isolation
  (dworld : Delete.World) (dclient : Client.t)
  (found : list Delete.ProductMetafield)
  (ds : Effects.state Delete.event unit)
  (cworld : Create.World) (options : Types.ProgramOptions)
  (client : option Client.t) (row : Utils.Row) (rows : list Utils.Row)
  (productId : Z) (metafields : list Utils.Metafield)
  (cs : Effects.state Create.event Create.Counters)
  (size : Z) (fuel : nat) :
  1 <= size ->
  Js.num_or (Types.batchSize options) 50 = size ->
  (List.length found < fuel)%nat ->
  (List.length metafields < fuel)%nat ->
  Forall (fun r => (List.length r < fuel)%nat) rows ->
  (exists batches ds' success failed,
      Utils.chunk fuel found size = Some batches
      /\ Delete.deleteMetafields dworld fuel dclient found size ds
         = (ds', Effects.Ret (success, failed))
      /\ Spec.delete_accounting dworld (List.length batches) batches 0 ds
           0 0
         = (ds', (success, failed))
      /\ Delete.deletes (Effects.trace ds')
         = Delete.deletes (Effects.trace ds) ++ map (map Delete.id) batches
      /\ (success + failed = List.length found)%nat)
  /\ (exists batches cs' k,
        Utils.chunk fuel metafields size = Some batches
        /\ Create.submit_row cworld options fuel row productId
             metafields cs
           = (cs', Effects.Ret tt)
        /\ Create.posts (Effects.trace cs')
           = Create.posts (Effects.trace cs) ++ firstn k batches
        /\ ((k = List.length batches
             /\ Create.errorCount (Effects.locals cs')
                = Create.errorCount (Effects.locals cs)
             /\ Spec.first_rejection cworld row productId batches cs
                = (cs', None))
            \/ ((1 <= k <= List.length batches)%nat
                /\ Create.errorCount (Effects.locals cs')
                   = S (Create.errorCount (Effects.locals cs))
                /\ exists msg t0 s1,
                     Spec.first_rejection cworld row productId batches cs
                     = (s1, Some msg)
                     /\ Effects.trace s1
                        = t0 ++ [Create.Post (nth (k - 1) batches [])]
                     /\ Create.post cworld t0 (nth (k - 1) batches [])
                        = Effects.Err msg
                     /\ cs'
                        = Effects.mkState
                            (Effects.trace s1
                             ++ [Create.LogError productId
                                   (Utils.get row "sku") msg])
                            (Create.count_error (Effects.locals s1)))))
  /\ (exists cs',
        Effects.for_each rows
          (Create.process_row cworld options fuel client) cs
        = (cs', Effects.Ret tt)).
Proof.
  intros Hsize Hopt Hfound Hmf Hrows. split; [|split].
  - exists (Spec.chunks_aux (List.length found) (Z.to_nat size) found).
    pose proof (chunk_some _ found size fuel Hsize Hfound) as Hchunk.
    unfold Delete.deleteMetafields. rewrite Hchunk.
    match goal with
    | |- context [Delete.delete_loop dworld ?t ?b ?i ?a ?c ds] =>
        destruct (delete_loop_all dworld t b i a c ds)
          as (ds' & success & failed & Hrun & Hdel & Hsum);
        pose proof (delete_loop_accounting dworld t b i a c ds) as Hacc
    end.
    exists ds', success, failed. rewrite Hrun in Hacc.
    split; [reflexivity|]. split; [exact Hrun|]. split.
    + injection Hacc as H1 H2. rewrite H1, H2. apply surjective_pairing.
    + split; [exact Hdel|]. rewrite Hsum, chunks_aux_concat; lia.
  - subst size. set (n := Js.num_or (Types.batchSize options) 50) in *.
    set (batches := Spec.chunks_aux (List.length metafields) (Z.to_nat n)
                      metafields).
    exists batches.
    pose proof (post_loop_first_rejection cworld row productId n Hsize fuel
                  metafields [] 0 cs Hmf ltac:(simpl; lia) ltac:(reflexivity))
      as Hloop.
    cbn [app] in Hloop. fold batches in Hloop.
    unfold Create.submit_row, Effects.try_catch. fold n. rewrite Hloop.
    destruct (Spec.first_rejection cworld row productId batches cs)
      as [s1 [msg|]] eqn:E.
    + destruct (first_rejection_some cworld row productId batches cs s1 msg E)
        as (k & t0 & Hk & Ht & Hpost & Hposts & Herr).
      eexists. exists k. split; [now apply chunk_some|].
      split; [reflexivity|]. cbn [Effects.trace Effects.locals]. split.
      * rewrite posts_app, Hposts. cbn [Create.posts]. now rewrite app_nil_r.
      * right. split; [exact Hk|]. split.
        -- cbn [Create.count_error Create.errorCount]. now rewrite Herr.
        -- exists msg, t0, s1. repeat split; trivial.
    + destruct (first_rejection_none cworld row productId batches cs s1 E)
        as [Hposts Herr].
      exists s1, (List.length batches). split; [now apply chunk_some|].
      split; [reflexivity|]. split.
      * now rewrite firstn_all.
      * left. repeat split; trivial.
  - subst size. now apply process_rows_return.
Qed.

Lemma submission_failure_isolation_witness :
  1 <= 1
  /\ Js.num_or (Types.batchSize (Spec.live_options 1)) 50 = 1
  /\ (List.length [Spec.found 1; Spec.found 2; Spec.found 3] < 6)%nat
  /\ (List.length (Utils.transformToMetafields Spec.two_column_row 5) < 6)%nat
  /\ Forall (fun r => (List.length r < 6)%nat)
       [Spec.two_column_row; Spec.example_row]
  /\ (exists batches ds' success failed,
         Utils.chunk 6 [Spec.found 1; Spec.found 2; Spec.found 3] 1 = Some batches
         /\ Delete.deleteMetafields (Spec.delete_world [] (fun _ => false)) 6 Spec.the_client [Spec.found 1; Spec.found 2; Spec.found 3] 1 Delete.init
            = (ds', Effects.Ret (success, failed))
         /\ Spec.delete_accounting (Spec.delete_world [] (fun _ => false)) (List.length batches) batches 0 Delete.init
              0 0
            = (ds', (success, failed))
         /\ Delete.deletes (Effects.trace ds')
            = Delete.deletes (Effects.trace Delete.init) ++ map (map Delete.id) batches
         /\ (success + failed = List.length [Spec.found 1; Spec.found 2; Spec.found 3])%nat)
     /\ (exists batches cs' k,
           Utils.chunk 6 (Utils.transformToMetafields Spec.two_column_row 5) 1 = Some batches
           /\ Create.submit_row (Spec.one_file [] (fun _ => false)) (Spec.live_options 1) 6 Spec.two_column_row 5
                (Utils.transformToMetafields Spec.two_column_row 5) Create.init
              = (cs', Effects.Ret tt)
           /\ Create.posts (Effects.trace cs')
              = Create.posts (Effects.trace Create.init) ++ firstn k batches
           /\ ((k = List.length batches
                /\ Create.errorCount (Effects.locals cs')
                   = Create.errorCount (Effects.locals Create.init)
                /\ Spec.first_rejection (Spec.one_file [] (fun _ => false)) Spec.two_column_row 5 batches Create.init
                   = (cs', None))
               \/ ((1 <= k <= List.length batches)%nat
                   /\ Create.errorCount (Effects.locals cs')
                      = S (Create.errorCount (Effects.locals Create.init))
                   /\ exists msg t0 s1,
                        Spec.first_rejection (Spec.one_file [] (fun _ => false)) Spec.two_column_row 5 batches Create.init
                        = (s1, Some msg)
                        /\ Effects.trace s1
                           = t0 ++ [Create.Post (nth (k - 1) batches [])]
                        /\ Create.post (Spec.one_file [] (fun _ => false)) t0 (nth (k - 1) batches [])
                           = Effects.Err msg
                        /\ cs'
                           = Effects.mkState
                               (Effects.trace s1
                                ++ [Create.LogError 5
                                      (Utils.get Spec.two_column_row "sku") msg])
                               (Create.count_error (Effects.locals s1)))))
     /\ (exists cs',
           Effects.for_each [Spec.two_column_row; Spec.example_row]
             (Create.process_row (Spec.one_file [] (fun _ => false)) (Spec.live_options 1) 6 (Some Spec.the_client)) Create.init
           = (cs', Effects.Ret tt)).
Proof.
  assert (Hrows : Forall (fun r => (List.length r < 6)%nat)
                    [Spec.two_column_row; Spec.example_row]).
  { repeat constructor. }
  split; [lia|]. split; [reflexivity|]. split; [simpl; lia|].
  split; [simpl; lia|]. split; [exact Hrows|].
  apply (submission_failure_isolation
           (Spec.delete_world [] (fun _ => false)) Spec.the_client
           [Spec.found 1; Spec.found 2; Spec.found 3] Delete.init
           (Spec.one_file [] (fun _ => false)) (Spec.live_options 1)
           (Some Spec.the_client) Spec.two_column_row
           [Spec.two_column_row; Spec.example_row] 5
           (Utils.transformToMetafields Spec.two_column_row 5) Create.init
           1 6);
    [lia|reflexivity|simpl; lia|simpl; lia|exact Hrows].
Defined.

(** C7, as stated, fails in the create script: the row has two batches, the
    first is rejected, and the second is never submitted. *)
Lemma failed_batch_stops_row_counterexample :
  Utils.chunk 3 (Utils.transformToMetafields Spec.two_column_row 5) 1
  = Some [[Utils.mkMetafield "product" 5 "a" "b" "x" "B for product_5"
             "write_and_sf_access"];
          [Utils.mkMetafield "product" 5 "a" "c" "y" "C for product_5"
             "write_and_sf_access"]]
  /\ Create.script (Spec.one_file [Spec.two_column_row] (fun _ => false))
       (Spec.live_options 1) 3 Create.init
     = (Effects.mkState
          [Create.GetStore; Create.ReadDir; Create.ReadFile "products.csv";
           Create.ReadDir; Create.ReadFile "products.csv";
           Create.Post
             [Utils.mkMetafield "product" 5 "a" "b" "x" "B for product_5"
                "write_and_sf_access"];
           Create.LogError 5 None "rejected";
           Create.LogSummary (Create.mkCounters 1 2 0 1)]
          (Create.mkCounters 1 2 0 1),
        Effects.Ret tt).
Proof.
  split; reflexivity.
Qed.

(** *** The criteria check of the delete script *)

(** C4: without a key list, a namespace list and a product-id list the
    delete script exits with status 1 and has sent no request; this holds
    whatever [all] is, so the override does not let the run proceed. *)
Theorem unfiltered_delete_refused (world : Delete.World)
  (opts : Types.DeleteOptions) (fuel : nat) :
  Types.key opts = None ->
  Types.namespace opts = None ->
  Types.productId opts = None ->
  exists s',
    Delete.script world opts fuel Delete.init = (s', Effects.Exit 1)
    /\ existsb Delete.is_remote (Effects.trace s') = false.
Proof.
  intros Hk Hn Hp.
  exists (Effects.mkState [Delete.LogConfigError] tt).
  split; [|reflexivity].
  unfold Delete.script. cbn [Delete.with_program Types.key Types.namespace
                               Types.productId Types.program].
  rewrite Hk, Hn, Hp. cbn [Delete.is_undefined andb].
  match goal with |- context [if ?c then _ else _] => destruct c end;
    reflexivity.
Qed.

Lemma unfiltered_delete_refused_witness :
  Types.key (Spec.all_override Spec.dry_options) = None
  /\ Types.namespace (Spec.all_override Spec.dry_options) = None
  /\ Types.productId (Spec.all_override Spec.dry_options) = None
  /\ Types.all (Spec.all_override Spec.dry_options) = Some true
  /\ exists s',
       Delete.script (Spec.delete_world [Spec.listed 1] (fun _ => true))
         (Spec.all_override Spec.dry_options) 5 Delete.init
       = (s', Effects.Exit 1)
       /\ existsb Delete.is_remote (Effects.trace s') = false.
Proof.
  split; [reflexivity|]. split; [reflexivity|]. split; [reflexivity|].
  split; [reflexivity|].
  apply (unfiltered_delete_refused
           (Spec.delete_world [Spec.listed 1] (fun _ => true))
           (Spec.all_override Spec.dry_options) 5); reflexivity.
Defined.

(* ================================================================== *)
(** * Further properties *)

(** ** The records of the transformer *)

Lemma header_allows_not_reserved (k : string) :
  Utils.header_allows k = true -> k <> "id" /\ k <> "sku".
Proof.
  unfold Utils.header_allows, Utils.includes, Utils.skipColumns.
  cbn [existsb]. rewrite negb_true_iff, !orb_false_iff.
  intros (Hid & Hsku & _).
  apply String.eqb_neq in Hid, Hsku. now split.
Qed.

Lemma transform_origin (row : Utils.Row) (productId : Z)
  (m : Utils.Metafield) :
  In m (Utils.transformToMetafields row productId) ->
  exists k v,
    In (k, v) row
    /\ Utils.header_allows k = true
    /\ Utils.value_allows v = true
    /\ m = Utils.toMetafield (Utils.sku_of row productId) productId (k, v).
Proof.
  unfold Utils.transformToMetafields. intros H.
  apply in_map_iff in H. destruct H as ([k v] & Hm & Hin).
  apply filter_In in Hin. destruct Hin as [Hin Hal].
  unfold Utils.columnSchema_allows in Hal. cbn [fst snd] in Hal.
  apply andb_true_iff in Hal. destruct Hal as [Hh Hv].
  exists k, v. repeat split; trivial. now symmetry.
Qed.

(** X1: every record carries the constants "product" and
    "write_and_sf_access" and the product id given, and its value is a cell
    of a column other than [id] and [sku] that is not empty and is its own
    trimmed form. *)
Theorem transform_records_wellformed (row : Utils.Row) (productId : Z)
  (m : Utils.Metafield) :
  In m (Utils.transformToMetafields row productId) ->
  Utils.resource_type m = "product"
  /\ Utils.permission_set m = "write_and_sf_access"
  /\ Utils.resource_id m = productId
  /\ Utils.value m <> ""
  /\ Js.trim (Utils.value m) = Utils.value m
  /\ exists k, In (k, Utils.value m) row /\ k <> "id" /\ k <> "sku".
Proof.
  intros H. destruct (transform_origin row productId m H)
    as (k & v & Hin & Hh & Hv & ->).
  rewrite value_allows_spec in Hv. unfold Spec.already_trimmed in Hv.
  rewrite !andb_true_iff, negb_true_iff in Hv.
  destruct Hv as [[Hne Htrim] _].
  apply String.eqb_neq in Hne. apply String.eqb_eq in Htrim.
  cbn. repeat split; trivial.
  exists k. split; [exact Hin|]. now apply header_allows_not_reserved.
Qed.

Lemma transform_records_wellformed_witness :
  In (Utils.mkMetafield "product" 123 "namespace_1" "key_2" "Value 21"
        "Key 2 for SKU0001" "write_and_sf_access")
     (Utils.transformToMetafields Spec.example_row 123)
  /\ exists k, In (k, "Value 21") Spec.example_row /\ k <> "id" /\ k <> "sku".
Proof.
  assert (H : In (Utils.mkMetafield "product" 123 "namespace_1" "key_2"
                    "Value 21" "Key 2 for SKU0001" "write_and_sf_access")
                 (Utils.transformToMetafields Spec.example_row 123))
    by (right; left; reflexivity).
  split; [exact H|].
  exact (proj2 (proj2 (proj2 (proj2 (proj2
           (transform_records_wellformed Spec.example_row 123 _ H)))))).
Defined.

(** *** Column names *)

Lemma split_nonempty (sep : ascii) (s : string) : Js.split sep s <> [].
Proof.
  destruct s as [|c s]; cbn [Js.split]; [discriminate|].
  destruct (Ascii.eqb c sep); [discriminate|].
  destruct (Js.split sep s); discriminate.
Qed.

(** Joining the pieces of a split with the separator gives the string
    back. *)
Lemma join_split (sep : ascii) (s : string) :
  Js.join (String sep EmptyString) (Js.split sep s) = s.
Proof.
  unfold Js.join. induction s as [|c s IH]; [reflexivity|].
  cbn [Js.split]. destruct (Ascii.eqb c sep) eqn:E.
  - apply Ascii.eqb_eq in E. subst c.
    pose proof (split_nonempty sep s) as Hne.
    destruct (Js.split sep s) as [|p ps]; [congruence|].
    cbn [String.concat] in *. now rewrite IH.
  - pose proof (split_nonempty sep s) as Hne.
    destruct (Js.split sep s) as [|p ps]; [congruence|].
    destruct ps as [|q ps].
    + cbn [String.concat] in *. now rewrite IH.
    + change (String.concat (String sep EmptyString) (String c p :: q :: ps))
        with (String c (p ++ String sep EmptyString
                        ++ String.concat (String sep EmptyString) (q :: ps)))%string.
      f_equal. exact IH.
Qed.

(** No piece of a split holds the separator. *)
Lemma split_pieces (sep : ascii) (s : string) :
  Forall (fun p => Spec.without sep p = true) (Js.split sep s).
Proof.
  induction s as [|c s IH]; cbn [Js.split].
  - repeat constructor.
  - destruct (Ascii.eqb c sep) eqn:E.
    + constructor; [reflexivity|exact IH].
    + pose proof (split_nonempty sep s) as Hne.
      destruct (Js.split sep s) as [|p ps]; [congruence|].
      inversion IH as [|? ? Hp Hps]; subst. constructor; [|exact Hps].
      unfold Spec.without in *. cbn [list_ascii_of_string existsb].
      rewrite (Ascii.eqb_sym sep c), E. exact Hp.
Qed.

(** X2: the namespace of a record holds no ['.'], and namespace and key
    give the column name back: a name with a ['.'] is namespace, ['.'], key;
    a name without is the namespace alone, with an empty key. *)
Theorem transform_name_split (row : Utils.Row) (productId : Z)
  (m : Utils.Metafield) :
  In m (Utils.transformToMetafields row productId) ->
  Spec.contains_dot (Utils.namespace m) = false
  /\ exists k,
       In (k, Utils.value m) row
       /\ (if Spec.contains_dot k
           then k = (Utils.namespace m ++ "." ++ Utils.key m)%string
           else k = Utils.namespace m /\ Utils.key m = "").
Proof.
  intros H. destruct (transform_origin row productId m H)
    as (k & v & Hin & _ & _ & ->).
  unfold Utils.toMetafield.
  cbn [Utils.namespace Utils.key Utils.value].
  pose proof (split_nonempty "." k) as Hne.
  pose proof (split_pieces "." k) as Hpieces.
  pose proof (join_split "." k) as Hjoin.
  destruct (Js.split "." k) as [|ns rest] eqn:E; [congruence|].
  cbn [hd tl].
  assert (Hns : Spec.without "." ns = true) by now inversion Hpieces.
  clear Hpieces. split.
  - unfold Spec.without in Hns. apply negb_true_iff in Hns. exact Hns.
  - exists k. split; [exact Hin|].
    destruct (Spec.contains_dot k) eqn:Hdot.
    + destruct rest as [|r rest].
      * unfold Js.join in Hjoin. cbn [String.concat] in Hjoin. subst ns.
        unfold Spec.without in Hns. apply negb_true_iff in Hns.
        unfold Spec.contains_dot in Hdot. congruence.
      * unfold Js.join in *. cbn [String.concat] in Hjoin.
        now rewrite <- Hjoin.
    + rewrite (split_without_separator "." k Hdot) in E.
      inversion E; subst. now split.
Qed.

Lemma transform_name_split_witness :
  In (Utils.mkMetafield "product" 9 "ns" "a.b" "v" "A.b for product_9"
        "write_and_sf_access")
     (Utils.transformToMetafields [("id", "9"); ("ns.a.b", "v")] 9)
  /\ Spec.contains_dot "ns" = false
  /\ exists k,
       In (k, "v") [("id", "9"); ("ns.a.b", "v")]
       /\ (if Spec.contains_dot k
           then k = ("ns" ++ "." ++ "a.b")%string
           else k = "ns" /\ "a.b" = "").
Proof.
  assert (H : In (Utils.mkMetafield "product" 9 "ns" "a.b" "v"
                    "A.b for product_9" "write_and_sf_access")
                 (Utils.transformToMetafields [("id", "9"); ("ns.a.b", "v")] 9))
    by (left; reflexivity).
  split; [exact H|].
  exact (transform_name_split [("id", "9"); ("ns.a.b", "v")] 9 _ H).
Defined.

(** *** Descriptions *)

Lemma capitalize_length (w : string) :
  String.length (Utils.capitalize w) = String.length w.
Proof. now destruct w. Qed.

Lemma append_length (a b : string) :
  String.length (a ++ b) = (String.length a + String.length b)%nat.
Proof.
  induction a as [|c a IH]; [reflexivity|]. cbn. now rewrite IH.
Qed.

(** The length of a join depends on the lengths of the pieces and of the
    separator only. *)
Lemma join_length_ext (sep1 sep2 : string) :
  String.length sep1 = String.length sep2 ->
  forall l1 l2 : list string,
    map String.length l1 = map String.length l2 ->
    String.length (Js.join sep1 l1) = String.length (Js.join sep2 l2).
Proof.
  intros Hsep. unfold Js.join.
  induction l1 as [|a l1 IH]; intros [|b l2] H; try discriminate H;
    [reflexivity|].
  cbn [map] in H. injection H as Hab Hrest.
  specialize (IH l2 Hrest).
  destruct l1 as [|a' l1], l2 as [|b' l2]; try discriminate Hrest.
  - exact Hab.
  - change (String.concat sep1 (a :: a' :: l1))
      with (a ++ sep1 ++ String.concat sep1 (a' :: l1))%string.
    change (String.concat sep2 (b :: b' :: l2))
      with (b ++ sep2 ++ String.concat sep2 (b' :: l2))%string.
    rewrite !append_length. congruence.
Qed.

Lemma without_append (c : ascii) (a b : string) :
  Spec.without c (a ++ b) = Spec.without c a && Spec.without c b.
Proof.
  unfold Spec.without. induction a as [|x a IH]; [reflexivity|].
  cbn [String.append list_ascii_of_string existsb].
  rewrite !negb_orb, IH. now rewrite andb_assoc.
Qed.

Lemma join_without (c : ascii) (sep : string) (l : list string) :
  Spec.without c sep = true ->
  Forall (fun p => Spec.without c p = true) l ->
  Spec.without c (Js.join sep l) = true.
Proof.
  intros Hsep. unfold Js.join. induction 1 as [|p l Hp Hl IH]; [reflexivity|].
  destruct l as [|q l]; [exact Hp|].
  change (String.concat sep (p :: q :: l))
    with (p ++ sep ++ String.concat sep (q :: l))%string.
  now rewrite !without_append, Hp, Hsep, IH.
Qed.

Lemma to_upper_not_underscore (c : ascii) :
  Ascii.eqb "_" c = false -> Ascii.eqb "_" (Js.to_upper c) = false.
Proof.
  destruct c as [[] [] [] [] [] [] [] []]; intros H; try exact H;
    reflexivity.
Qed.

Lemma capitalize_without_underscore (w : string) :
  Spec.without "_" w = true -> Spec.without "_" (Utils.capitalize w) = true.
Proof.
  destruct w as [|c w]; [trivial|].
  unfold Spec.without. cbn [Utils.capitalize list_ascii_of_string existsb].
  rewrite !negb_orb, !andb_true_iff, !negb_true_iff.
  intros [Hc Hw]. split; [now apply to_upper_not_underscore|exact Hw].
Qed.

Lemma sku_of_nonempty (row : Utils.Row) (productId : Z) :
  Utils.sku_of row productId <> "".
Proof.
  unfold Utils.sku_of.
  destruct (Utils.get row "sku") as [[|c r]|]; discriminate.
Qed.

(** X3: for a row whose column names are ASCII and a product id that is a
    safe integer, the description of a record is a formatted key, then
    " for ", then the row's [sku] or, when that is missing or empty,
    "product_" with the product id; the formatted key is as long as the key
    and holds no ['_'], and the name after " for " is never empty. *)
Theorem description_shape (row : Utils.Row) (productId : Z)
  (m : Utils.Metafield) :
  Forall (fun e => Spec.is_ascii (fst e) = true) row ->
  Spec.safe_integer productId ->
  In m (Utils.transformToMetafields row productId) ->
  exists formatted : string,
    Utils.description m
    = (formatted ++ " for " ++ Utils.sku_of row productId)%string
    /\ String.length formatted = String.length (Utils.key m)
    /\ Spec.without "_" formatted = true
    /\ Utils.sku_of row productId <> ""
    /\ (forall c r, Utils.get row "sku" = Some (String c r) ->
        Utils.sku_of row productId = String c r)
    /\ (Utils.get row "sku" = None \/ Utils.get row "sku" = Some "" ->
        Utils.sku_of row productId
        = ("product_" ++ Js.string_of_number productId)%string).
Proof.
  intros _ _ H. destruct (transform_origin row productId m H)
    as (k & v & _ & _ & _ & ->).
  unfold Utils.toMetafield.
  cbn [Utils.description Utils.key].
  set (key := Js.join "." (tl (Js.split "." k))).
  exists (Js.join " " (map Utils.capitalize (Js.split "_" key))).
  split; [reflexivity|]. split; [|split; [|split; [|split]]].
  - rewrite <- (join_split "_" key) at 2.
    apply join_length_ext; [reflexivity|].
    rewrite map_map. apply map_ext. apply capitalize_length.
  - apply join_without; [reflexivity|].
    apply Forall_map. eapply Forall_impl; [|apply split_pieces].
    intros p. apply capitalize_without_underscore.
  - apply sku_of_nonempty.
  - intros c r Hsku. unfold Utils.sku_of. now rewrite Hsku.
  - intros [Hsku|Hsku]; unfold Utils.sku_of; now rewrite Hsku.
Qed.

Lemma description_shape_witness :
  Forall (fun e => Spec.is_ascii (fst e) = true)
    [("id", "9"); ("ns.long_key_name", "v")]
  /\ Spec.safe_integer 9
  /\ In (Utils.mkMetafield "product" 9 "ns" "long_key_name" "v"
           "Long Key Name for product_9" "write_and_sf_access")
        (Utils.transformToMetafields [("id", "9"); ("ns.long_key_name", "v")] 9)
  /\ exists formatted : string,
       "Long Key Name for product_9"
       = (formatted ++ " for "
          ++ Utils.sku_of [("id", "9"); ("ns.long_key_name", "v")] 9)%string
       /\ String.length formatted = String.length "long_key_name"
       /\ Spec.without "_" formatted = true.
Proof.
  assert (Hascii : Forall (fun e => Spec.is_ascii (fst e) = true)
                     [("id", "9"); ("ns.long_key_name", "v")])
    by (repeat constructor).
  assert (Hsafe : Spec.safe_integer 9) by (unfold Spec.safe_integer; cbn; lia).
  assert (H : In (Utils.mkMetafield "product" 9 "ns" "long_key_name" "v"
                    "Long Key Name for product_9" "write_and_sf_access")
                 (Utils.transformToMetafields
                    [("id", "9"); ("ns.long_key_name", "v")] 9))
    by (left; reflexivity).
  split; [exact Hascii|]. split; [exact Hsafe|]. split; [exact H|].
  destruct (description_shape [("id", "9"); ("ns.long_key_name", "v")] 9 _
              Hascii Hsafe H)
    as (formatted & Hd & Hl & Hw & _).
  exists formatted. repeat split; assumption.
Defined.

(** ** The number of batches *)

Lemma group_count_step (a k : Z) :
  1 <= k -> k <= a ->
  Spec.group_count a k = 1 + Spec.group_count (a - k) k.
Proof.
  intros Hk Ha. unfold Spec.group_count.
  replace (a + k - 1) with (a - k + k - 1 + 1 * k) by lia.
  rewrite Z.div_add by lia. lia.
Qed.

Lemma group_count_one (a k : Z) :
  1 <= a -> a <= k -> Spec.group_count a k = 1.
Proof.
  intros Ha Hk. unfold Spec.group_count. symmetry.
  apply (Z.div_unique (a + k - 1) k 1 (a - 1)); lia.
Qed.

Lemma group_count_zero (k : Z) : 1 <= k -> Spec.group_count 0 k = 0.
Proof.
  intros Hk. unfold Spec.group_count. apply Z.div_small. lia.
Qed.

Lemma chunks_aux_count (T : Type) (k : nat) (Hk : (1 <= k)%nat) :
  forall (fuel : nat) (l : list T),
    (List.length l <= fuel)%nat ->
    Z.of_nat (List.length (Spec.chunks_aux fuel k l))
    = Spec.group_count (Z.of_nat (List.length l)) (Z.of_nat k).
Proof.
  induction fuel as [|fuel IH]; intros l Hl.
  - destruct l; [|cbn [List.length] in Hl; lia].
    cbn [Spec.chunks_aux List.length]. now rewrite group_count_zero by lia.
  - destruct l as [|x l].
    + cbn [Spec.chunks_aux List.length]. now rewrite group_count_zero by lia.
    + cbn [Spec.chunks_aux].
      change (List.length (firstn k (x :: l)
                           :: Spec.chunks_aux fuel k (skipn k (x :: l))))
        with (S (List.length (Spec.chunks_aux fuel k (skipn k (x :: l))))).
      rewrite Nat2Z.inj_succ, IH
        by (rewrite length_skipn; cbn [List.length] in *; lia).
      rewrite length_skipn.
      change (List.length (x :: l)) with (S (List.length l)).
      remember (S (List.length l)) as n eqn:En.
      destruct (Nat.le_gt_cases k n) as [Hle|Hgt].
      * rewrite (group_count_step (Z.of_nat n)) by lia.
        replace (Z.of_nat (n - k)) with (Z.of_nat n - Z.of_nat k) by lia. lia.
      * replace (n - k)%nat with 0%nat by lia.
        rewrite group_count_zero by lia.
        rewrite group_count_one by lia. lia.
Qed.

(** X4: for a size [N >= 1], [chunk] makes the length of the sequence divided
    by [N], rounded up, groups: no group for the empty sequence, and one
    group holding the whole sequence when it is not empty and no longer than
    [N]. *)
Theorem chunk_count (T : Type) (S : list T) (N : Z) (fuel : nat) :
  1 <= N ->
  (List.length S < fuel)%nat ->
  exists groups : list (list T),
    Utils.chunk fuel S N = Some groups
    /\ Z.of_nat (List.length groups)
       = Spec.group_count (Z.of_nat (List.length S)) N
    /\ (S = [] -> groups = [])
    /\ (S <> [] -> Z.of_nat (List.length S) <= N -> groups = [S]).
Proof.
  intros HN Hf.
  exists (Spec.chunks_aux (List.length S) (Z.to_nat N) S).
  split; [now apply chunk_some|]. split; [|split].
  - rewrite chunks_aux_count by lia. f_equal. lia.
  - intros ->. reflexivity.
  - intros Hne Hle. destruct S as [|x S]; [congruence|].
    cbn [Spec.chunks_aux List.length].
    cbn [List.length] in Hle.
    rewrite firstn_all2 by (cbn [List.length]; lia).
    rewrite skipn_all2 by (cbn [List.length]; lia).
    now destruct (List.length S).
Qed.

Lemma chunk_count_witness :
  1 <= 50 /\ (List.length [1; 2; 3] < 4)%nat
  /\ exists groups : list (list Z),
       Utils.chunk 4 [1; 2; 3] 50 = Some groups
       /\ Z.of_nat (List.length groups)
          = Spec.group_count (Z.of_nat (List.length [1; 2; 3])) 50
       /\ (([1; 2; 3] : list Z) = [] -> groups = [])
       /\ (([1; 2; 3] : list Z) <> [] ->
           Z.of_nat (List.length [1; 2; 3]) <= 50 -> groups = [[1; 2; 3]]).
Proof.
  split; [lia|]. split; [simpl; lia|].
  apply (chunk_count Z [1; 2; 3] 50 4); [lia|simpl; lia].
Defined.

(** ** What the create script selects, whatever the options *)

Lemma sorted_skipn (A : Type) (R : A -> A -> Prop) (n : nat) :
  forall l : list A, Sorted R l -> Sorted R (skipn n l).
Proof.
  induction n as [|n IH]; intros l H; [exact H|].
  destruct l as [|x l]; [exact H|].
  cbn [skipn]. apply IH. now inversion H.
Qed.

Lemma sorted_firstn (A : Type) (R : A -> A -> Prop) (n : nat) :
  forall l : list A, Sorted R l -> Sorted R (firstn n l).
Proof.
  induction n as [|n IH]; intros l H; [constructor|].
  destruct l as [|x l]; [constructor|].
  cbn [firstn]. inversion H as [|? ? Hs Hhd]; subst.
  constructor; [now apply IH|].
  destruct l as [|y l]; [destruct n; constructor|].
  destruct n; cbn [firstn]; constructor. now inversion Hhd.
Qed.

Lemma slice_incl (T : Type) (a : list T) (start : Z) (end_ : option Z)
  (x : T) :
  In x (Js.slice a start end_) -> In x a.
Proof.
  unfold Js.slice. intros H.
  set (k := Z.to_nat (Js.rel_index (Z.of_nat (List.length a)) start)) in *.
  rewrite <- (firstn_skipn k a). apply in_or_app. right.
  match type of H with
  | In x (firstn ?n ?l) =>
      rewrite <- (firstn_skipn n l); apply in_or_app; now left
  end.
Qed.

Lemma slice_length (T : Type) (a : list T) (start : Z) (end_ : option Z) :
  (List.length (Js.slice a start end_) <= List.length a)%nat.
Proof.
  unfold Js.slice. rewrite length_firstn, length_skipn. lia.
Qed.

(** X5: whatever [skip] and [limit] are (negative, zero, missing), the files
    the create script selects all end in ".csv" and come from the listing,
    they are in sorted order, and there are no more of them than the listing
    has. *)
Theorem select_files_sound (options : Types.ProgramOptions)
  (files : list string) :
  Forall (fun file => Js.ends_with file ".csv" = true /\ In file files)
    (Create.select_files options files)
  /\ Sorted Spec.string_le (Create.select_files options files)
  /\ (List.length (Create.select_files options files)
      <= List.length files)%nat.
Proof.
  unfold Create.select_files. split; [|split].
  - apply Forall_forall. intros file H.
    apply slice_incl in H.
    apply (Permutation_in _ (sort_perm _)) in H.
    apply filter_In in H. tauto.
  - unfold Js.slice. apply sorted_firstn, sorted_skipn, sort_sorted.
  - etransitivity; [apply slice_length|].
    rewrite (Permutation_length (sort_perm _)). apply filter_length_le.
Qed.

(** ** Numeric options on the command line *)

Lemma parse_unsigned_radix_default (s : string) :
  Js.parse_unsigned_radix 10 true s = Js.parse_unsigned s.
Proof.
  destruct s as [|c s]; [reflexivity|].
  destruct c as [[] [] [] [] [] [] [] []]; reflexivity.
Qed.

Lemma parseInt_radix_zero (s : string) (radix : option Z) :
  radix = None \/ radix = Some 0 ->
  Js.parseInt_radix s radix = Js.parseInt_string s.
Proof.
  intros [-> | ->]; unfold Js.parseInt_radix, Js.parseInt_string;
    cbn [Js.to_int32 Z.eqb];
    change (Js.to_int32 0 =? 0) with true; cbv iota;
    destruct (Js.trim_start s) as [|c r];
    rewrite ?parse_unsigned_radix_default; try reflexivity;
    destruct c as [[] [] [] [] [] [] [] []];
    rewrite ?parse_unsigned_radix_default; reflexivity.
Qed.

(** X6: the numeric options are parsed by [parseInt] with the value the
    option had before as radix.  For [--batch-size] that is 50 at the first
    occurrence, a radix [parseInt] refuses: the first argument is always
    lost, a flag given once leaves [NaN] and both scripts batch by 50, and
    a flag given again is read from its second occurrence on like an option
    without default.  [--skip] (radix 0) and [--limit] (no radix) given
    once are read as [parseInt] reads them without a radix. *)
Theorem batch_size_option_first_lost
  (accessToken storeHash dryRun skip limit : list string)
  (v : string) (rest : list string) :
  Cli.batchSize_option [] = Some 50
  /\ Cli.batchSize_option (v :: rest) = Cli.limit_option rest
  /\ Js.num_or
       (Types.batchSize
          (Cli.create_opts accessToken storeHash dryRun skip limit [v]))
       50 = 50
  /\ Cli.skip_option [v] = Js.parseInt (Some v)
  /\ Cli.limit_option [v] = Js.parseInt (Some v).
Proof.
  split; [reflexivity|]. split; [reflexivity|]. split; [reflexivity|].
  split.
  - apply parseInt_radix_zero. now right.
  - apply parseInt_radix_zero. now left.
Qed.

(** ** The listing loop of the delete script *)

Lemma fetch_loop_limit (options : Types.DeleteOptions) (l : Z)
  (failure : option string) (s : Effects.state Delete.event unit) :
  Types.limit (Types.program options) = Some l ->
  1 <= l ->
  forall (yielded items : list Delete.RawItem),
    Z.of_nat (List.length items) < l ->
    Delete.fetch_loop options yielded failure items s
    = if l - Z.of_nat (List.length items) <=? Z.of_nat (List.length yielded)
      then (s, Effects.Ret
                 (items
                  ++ firstn (Z.to_nat (l - Z.of_nat (List.length items)))
                       yielded))
      else match failure with
           | Some msg => (s, Effects.Throw msg)
           | None => (s, Effects.Ret (items ++ yielded))
           end.
Proof.
  intros Hlimit Hl.
  induction yielded as [|item rest IH]; intros items Hitems.
  - cbn [Delete.fetch_loop List.length].
    destruct (_ <=? _) eqn:E; [apply Z.leb_le in E; lia|].
    rewrite app_nil_r. now destruct failure.
  - cbn [Delete.fetch_loop]. rewrite Hlimit. cbn [Js.truthy_num].
    replace (negb (l =? 0)) with true
      by (symmetry; apply negb_true_iff, Z.eqb_neq; lia).
    cbn [andb]. rewrite length_app. cbn [List.length].
    destruct (l <=? Z.of_nat (List.length items + 1)) eqn:E.
    + apply Z.leb_le in E.
      destruct (_ <=? _) eqn:E'; [|apply Z.leb_gt in E'; lia].
      replace (Z.to_nat (l - Z.of_nat (List.length items))) with 1%nat by lia.
      reflexivity.
    + apply Z.leb_gt in E.
      rewrite IH by (rewrite length_app; cbn [List.length]; lia).
      rewrite length_app. cbn [List.length].
      replace (l - Z.of_nat (List.length items + 1)
               <=? Z.of_nat (List.length rest))
        with (l - Z.of_nat (List.length items)
              <=? Z.of_nat (S (List.length rest)))
        by (apply eq_true_iff_eq; rewrite !Z.leb_le; lia).
      destruct (_ <=? _); [|now rewrite <- app_assoc].
      replace (Z.to_nat (l - Z.of_nat (List.length items)))
        with (S (Z.to_nat (l - Z.of_nat (List.length items + 1)))) by lia.
      cbn [firstn]. now rewrite <- app_assoc.
Qed.

Lemma fetch_loop_unlimited (options : Types.DeleteOptions)
  (failure : option string) (s : Effects.state Delete.event unit) :
  Js.truthy_num (Types.limit (Types.program options)) = false ->
  forall (yielded items : list Delete.RawItem),
    Delete.fetch_loop options yielded failure items s
    = match failure with
      | Some msg => (s, Effects.Throw msg)
      | None => (s, Effects.Ret (items ++ yielded))
      end.
Proof.
  intros Hlimit.
  induction yielded as [|item rest IH]; intros items.
  - cbn [Delete.fetch_loop]. rewrite app_nil_r. now destruct failure.
  - cbn [Delete.fetch_loop].
    destruct (Types.limit (Types.program options)) as [l|].
    + rewrite Hlimit. cbn [andb]. rewrite IH, <- app_assoc. reflexivity.
    + rewrite IH, <- app_assoc. reflexivity.
Qed.

(** X7: with a fetch limit of [l >= 1], the listing loop keeps the first [l]
    items and stops there, so that a failure the listing would raise later
    is never met; when the listing ends before [l] items, or without a limit
    (missing or 0), it keeps every item, or throws the listing's failure. *)
Theorem fetch_limit (options : Types.DeleteOptions) (l : Z)
  (yielded : list Delete.RawItem) (failure : option string)
  (s : Effects.state Delete.event unit) :
  Types.limit (Types.program options) = Some l ->
  0 <= l ->
  Delete.fetch_loop options yielded failure [] s
  = if (1 <=? l) && (l <=? Z.of_nat (List.length yielded))
    then (s, Effects.Ret (firstn (Z.to_nat l) yielded))
    else match failure with
         | Some msg => (s, Effects.Throw msg)
         | None => (s, Effects.Ret yielded)
         end.
Proof.
  intros Hlimit Hl.
  destruct (1 <=? l) eqn:E1.
  - apply Z.leb_le in E1.
    rewrite (fetch_loop_limit options l failure s Hlimit E1)
      by (cbn [List.length]; lia).
    cbn [List.length app andb]. now rewrite Z.sub_0_r.
  - apply Z.leb_gt in E1. assert (l = 0) as -> by lia.
    rewrite fetch_loop_unlimited by now rewrite Hlimit.
    reflexivity.
Qed.

Lemma fetch_limit_witness :
  Types.limit
    (Types.program
       (Spec.by_key
          (Types.mkProgramOptions (Some "token") (Some "hash") (Some true)
             None (Some 2) None)))
  = Some 2
  /\ 0 <= 2
  /\ Delete.fetch_loop
       (Spec.by_key
          (Types.mkProgramOptions (Some "token") (Some "hash") (Some true)
             None (Some 2) None))
       [Spec.listed 1; Spec.listed 2; Spec.listed 3] (Some "page 2 failed")
       [] Delete.init
     = (Delete.init, Effects.Ret [Spec.listed 1; Spec.listed 2]).
Proof.
  split; [reflexivity|]. split; [lia|].
  exact (fetch_limit
           (Spec.by_key
              (Types.mkProgramOptions (Some "token") (Some "hash") (Some true)
                 None (Some 2) None))
           2 [Spec.listed 1; Spec.listed 2; Spec.listed 3]
           (Some "page 2 failed") Delete.init eq_refl
           (proj1 (Z.leb_le 0 2) eq_refl)).
Defined.

(** ** Runs without credentials *)

Lemma default_dryRun_credentials (o : Types.ProgramOptions) :
  Types.accessToken (Types.default_dryRun o) = Types.accessToken o
  /\ Types.storeHash (Types.default_dryRun o) = Types.storeHash o
  /\ Types.has_credentials (Types.default_dryRun o) = Types.has_credentials o.
Proof.
  unfold Types.default_dryRun, Types.has_credentials.
  destruct (Types.dryRun o); repeat split.
Qed.

Lemma missing_credential_test (o : Types.ProgramOptions) :
  negb (Js.truthy_str (Types.accessToken o))
  || negb (Js.truthy_str (Types.storeHash o))
  = negb (Types.has_credentials o).
Proof.
  unfold Types.has_credentials. now rewrite negb_andb.
Qed.

(** X8: without both credentials, the create script in live mode exits with
    status 1 before it reads anything, and the delete script exits with
    status 1 without any request in live mode and in dry-run mode alike. *)
Theorem missing_credentials
  (cworld : Create.World) (copts : Types.ProgramOptions)
  (dworld : Delete.World) (dopts : Types.DeleteOptions) (fuel : nat) :
  (Types.has_credentials copts = false ->
   Types.is_dryRun (Types.default_dryRun copts) = false ->
   Create.script cworld copts fuel Create.init
   = (Effects.mkState [Create.LogConfigError] Create.zero, Effects.Exit 1))
  /\ (Types.has_credentials (Types.program dopts) = false ->
      exists s',
        Delete.script dworld dopts fuel Delete.init = (s', Effects.Exit 1)
        /\ existsb Delete.is_remote (Effects.trace s') = false).
Proof.
  split.
  - intros Hcred Hlive. unfold Create.script.
    rewrite missing_credential_test, Hlive.
    destruct (default_dryRun_credentials copts) as (_ & _ & ->).
    rewrite Hcred. reflexivity.
  - intros Hcred. unfold Delete.script.
    cbn [Delete.with_program Types.program Types.key Types.namespace
           Types.productId].
    rewrite missing_credential_test.
    destruct (default_dryRun_credentials (Types.program dopts))
      as (_ & _ & Hc). rewrite Hc, Hcred. cbn [negb andb].
    destruct (Types.is_dryRun (Types.default_dryRun (Types.program dopts)))
      eqn:Hdry; cbn [negb].
    2:{ eexists. split; reflexivity. }
    destruct (Delete.is_undefined (Types.key dopts)
              && Delete.is_undefined (Types.namespace dopts)
              && Delete.is_undefined (Types.productId dopts)).
    + eexists. split; reflexivity.
    + unfold Delete.main. cbn [Delete.with_program Types.program].
      rewrite Hc, Hcred, Hdry. eexists. split; reflexivity.
Qed.

Lemma missing_credentials_witness :
  Types.has_credentials
    (Types.mkProgramOptions None (Some "hash") (Some false) None None None)
  = false
  /\ Create.script (Spec.one_file [Spec.example_row] (fun _ => true))
       (Types.mkProgramOptions None (Some "hash") (Some false) None None None)
       5 Create.init
     = (Effects.mkState [Create.LogConfigError] Create.zero, Effects.Exit 1)
  /\ exists s',
       Delete.script (Spec.delete_world [Spec.listed 1] (fun _ => true))
         (Spec.by_key
            (Types.mkProgramOptions None (Some "hash") (Some true) None None
               None))
         5 Delete.init
       = (s', Effects.Exit 1)
       /\ existsb Delete.is_remote (Effects.trace s') = false.
Proof.
  split; [reflexivity|]. split.
  - apply (proj1 (missing_credentials
                    (Spec.one_file [Spec.example_row] (fun _ => true))
                    (Types.mkProgramOptions None (Some "hash") (Some false)
                       None None None)
                    (Spec.delete_world [] (fun _ => true))
                    (Spec.by_key Spec.dry_options) 5)); reflexivity.
  - apply (proj2 (missing_credentials
                    (Spec.one_file [] (fun _ => true)) Spec.dry_options
                    (Spec.delete_world [Spec.listed 1] (fun _ => true))
                    (Spec.by_key
                       (Types.mkProgramOptions None (Some "hash") (Some true)
                          None None None)) 5)); reflexivity.
Defined.

(** ** What the delete script does with the listing *)

Lemma of_options_some (o : Types.ProgramOptions) :
  Types.has_credentials o = true ->
  exists client, Client.of_options o = Some client.
Proof.
  intros H. unfold Client.of_options. rewrite H.
  unfold Types.has_credentials in H. apply andb_true_iff in H.
  destruct H as [Ha Hh].
  destruct (Types.accessToken o); [|discriminate Ha].
  destruct (Types.storeHash o); [|discriminate Hh].
  eexists. reflexivity.
Qed.

Section DeleteRun.

Variable world : Delete.World.
Variable opts : Types.DeleteOptions.
Variable yielded : list Delete.RawItem.
Variable failure : option string.

Hypothesis Hcred : Types.has_credentials (Types.program opts) = true.
Hypothesis Hcriteria :
  Delete.is_undefined (Types.key opts)
  && Delete.is_undefined (Types.namespace opts)
  && Delete.is_undefined (Types.productId opts) = false.
Hypothesis Hlimit :
  Js.truthy_num (Types.limit (Types.program opts)) = false.
Hypothesis Hlisting :
  forall t q, Delete.list_ world t q = (yielded, failure).

Let options : Types.DeleteOptions :=
  Delete.with_program opts (Types.default_dryRun (Types.program opts)).

Let query : Delete.Query :=
  Delete.mkQuery (Types.key opts) (Types.namespace opts)
    (Types.productId opts).

Lemma script_is_main (fuel : nat) :
  Delete.script world opts fuel = Delete.main world options fuel.
Proof.
  unfold Delete.script. fold options.
  rewrite missing_credential_test.
  subst options. cbn [Delete.with_program Types.program Types.key
                        Types.namespace Types.productId].
  destruct (default_dryRun_credentials (Types.program opts)) as (_ & _ & ->).
  rewrite Hcred, Hcriteria, andb_false_r. reflexivity.
Qed.

Lemma options_limit :
  Js.truthy_num (Types.limit (Types.program options)) = false.
Proof.
  subst options. cbn [Delete.with_program Types.program].
  unfold Types.default_dryRun.
  destruct (Types.dryRun (Types.program opts)); exact Hlimit.
Qed.

(** The fetch, started after the store request. *)
Lemma fetch_after_store (client : Client.t) :
  Delete.fetchMetafields world options client
    (Effects.mkState [Delete.GetStore] tt)
  = match failure, yielded with
    | Some msg, _ =>
        (Effects.mkState
           [Delete.GetStore; Delete.ListCall query; Delete.LogFetchError msg]
           tt, Effects.Exit 1)
    | None, [] =>
        (Effects.mkState
           [Delete.GetStore; Delete.ListCall query; Delete.LogNoneFound] tt,
         Effects.Exit 0)
    | None, _ :: _ =>
        (Effects.mkState [Delete.GetStore; Delete.ListCall query] tt,
         Effects.Ret (Delete.filter_allows yielded))
    end.
Proof.
  unfold Delete.fetchMetafields, Effects.try_catch.
  unfold Effects.bind at 1. unfold Effects.call.
  cbn [Effects.trace Effects.locals]. rewrite Hlisting. cbn [fst snd].
  unfold Effects.bind at 1.
  rewrite (fetch_loop_unlimited options failure _ options_limit).
  cbn [app]. subst options query.
  cbn [Delete.with_program Types.key Types.namespace Types.productId].
  destruct failure as [msg|]; [reflexivity|].
  destruct yielded; reflexivity.
Qed.

Lemma main_after_store (fuel : nat) :
  exists client,
    Delete.main world options fuel Delete.init
    = Effects.try_catch
        (Effects.bind (Delete.fetchMetafields world options client)
           (fun metafields =>
              match metafields with
              | [] => Effects.ret tt
              | _ :: _ =>
                  if Types.is_dryRun (Types.program options)
                  then Effects.emit
                         (Delete.LogSample (Js.slice metafields 0 (Some 5)))
                  else
                    Effects.bind
                      (Delete.deleteMetafields world fuel client metafields
                         (Js.num_or
                            (Types.batchSize (Types.program options)) 50))
                      (fun r =>
                         Effects.emit
                           (Delete.LogSummary (List.length metafields)
                              (fst r) (snd r)))
              end))
        (fun msg =>
           Effects.bind (Effects.emit (Delete.LogFatal msg))
             (fun _ => Effects.exit 1))
        (Effects.mkState [Delete.GetStore] tt).
Proof.
  assert (Hc : Types.has_credentials (Types.program options) = true).
  { subst options. cbn [Delete.with_program Types.program].
    destruct (default_dryRun_credentials (Types.program opts)) as (_ & _ & ->).
    exact Hcred. }
  destruct (of_options_some _ Hc) as (client & Hclient).
  exists client. unfold Delete.main. rewrite Hc, Hclient.
  unfold Effects.try_catch, Delete.getStoreInfo.
  destruct (Types.is_dryRun (Types.program options)); reflexivity.
Qed.

End DeleteRun.

Lemma default_dryRun_batchSize (o : Types.ProgramOptions) :
  Types.batchSize (Types.default_dryRun o) = Types.batchSize o.
Proof.
  unfold Types.default_dryRun. now destruct (Types.dryRun o).
Qed.

(** X9: with credentials, a criterion and no fetch limit, the delete script
    ends on the listing in three cases.  A listing that fails gives exit
    status 1; an empty listing gives exit status 0; a listing whose items
    are all malformed lets the script return normally.  In each case the
    requests sent are the store request and the listing, and nothing is
    deleted. *)
Theorem delete_listing_end (world : Delete.World)
  (opts : Types.DeleteOptions) (fuel : nat)
  (yielded : list Delete.RawItem) (failure : option string) :
  Types.has_credentials (Types.program opts) = true ->
  Delete.is_undefined (Types.key opts)
  && Delete.is_undefined (Types.namespace opts)
  && Delete.is_undefined (Types.productId opts) = false ->
  Js.truthy_num (Types.limit (Types.program opts)) = false ->
  (forall t q, Delete.list_ world t q = (yielded, failure)) ->
  (failure <> None \/ Delete.filter_allows yielded = []) ->
  exists s' code,
    (Delete.script world opts fuel Delete.init
     = (s', match code with Some c => Effects.Exit c | None => Effects.Ret tt end))
    /\ code = match failure, yielded with
              | Some _, _ => Some 1
              | None, [] => Some 0
              | None, _ :: _ => None
              end
    /\ filter Delete.is_remote (Effects.trace s')
       = [Delete.GetStore;
          Delete.ListCall
            (Delete.mkQuery (Types.key opts) (Types.namespace opts)
               (Types.productId opts))].
Proof.
  intros Hcred Hcrit Hlimit Hlisting Hend.
  rewrite (script_is_main world opts Hcred Hcrit).
  destruct (main_after_store world opts Hcred fuel) as (client & ->).
  unfold Effects.try_catch. unfold Effects.bind at 1.
  rewrite (fetch_after_store world opts yielded failure Hlimit Hlisting).
  destruct failure as [msg|].
  - eexists. exists (Some 1). repeat split.
  - destruct Hend as [Hend|Hend]; [congruence|].
    destruct yielded as [|item rest].
    + eexists. exists (Some 0). repeat split.
    + rewrite Hend. eexists. exists None. repeat split.
Qed.

Lemma delete_listing_end_witness :
  exists s' code,
    (Delete.script (Spec.delete_world [] (fun _ => true))
       (Spec.by_key Spec.dry_options) 5 Delete.init
     = (s', match code with
            | Some c => Effects.Exit c
            | None => Effects.Ret tt
            end))
    /\ code = Some 0
    /\ filter Delete.is_remote (Effects.trace s')
       = [Delete.GetStore;
          Delete.ListCall
            (Delete.mkQuery (Some ["short_description_mf"]) None None)].
Proof.
  exact (delete_listing_end (Spec.delete_world [] (fun _ => true))
           (Spec.by_key Spec.dry_options) 5 [] None eq_refl eq_refl eq_refl
           (fun _ _ => eq_refl) (or_intror eq_refl)).
Defined.

(** X10: in a live run with credentials, a criterion, no fetch limit and a
    batch size of one or more, when the listing gives at least one item and
    does not fail, the script returns normally and the identifiers it has
    submitted for deletion are, in order and once each, those of the listed
    items that have the expected shape; malformed items are left out. *)
Theorem delete_live_run (world : Delete.World)
  (opts : Types.DeleteOptions) (fuel : nat)
  (yielded : list Delete.RawItem) :
  Types.has_credentials (Types.program opts) = true ->
  Delete.is_undefined (Types.key opts)
  && Delete.is_undefined (Types.namespace opts)
  && Delete.is_undefined (Types.productId opts) = false ->
  Js.truthy_num (Types.limit (Types.program opts)) = false ->
  (forall t q, Delete.list_ world t q = (yielded, None)) ->
  Types.is_dryRun (Types.default_dryRun (Types.program opts)) = false ->
  1 <= Js.num_or (Types.batchSize (Types.program opts)) 50 ->
  (List.length (Delete.filter_allows yielded) < fuel)%nat ->
  yielded <> [] ->
  exists s',
    Delete.script world opts fuel Delete.init = (s', Effects.Ret tt)
    /\ List.concat (Delete.deletes (Effects.trace s'))
       = map Delete.id (Delete.filter_allows yielded).
Proof.
  intros Hcred Hcrit Hlimit Hlisting Hlive Hn Hfuel Hne.
  rewrite (script_is_main world opts Hcred Hcrit).
  destruct (main_after_store world opts Hcred fuel) as (client & ->).
  unfold Effects.try_catch. unfold Effects.bind at 1.
  rewrite (fetch_after_store world opts yielded None Hlimit Hlisting).
  destruct yielded as [|item rest]; [congruence|].
  set (found := Delete.filter_allows (item :: rest)) in *.
  cbn [Delete.with_program Types.program].
  rewrite Hlive, default_dryRun_batchSize.
  destruct found as [|m found'] eqn:Efound.
  - eexists. split; reflexivity.
  - rewrite <- Efound in *. clear Efound.
    set (n := Js.num_or (Types.batchSize (Types.program opts)) 50) in *.
    unfold Effects.bind at 1. unfold Delete.deleteMetafields.
    rewrite (chunk_some _ found n fuel Hn Hfuel).
    match goal with
    | |- context [Delete.delete_loop world ?t ?b ?i ?a ?c ?st] =>
        destruct (delete_loop_all world t b i a c st)
          as (s1 & success & failed & Hrun & Hdel & _)
    end.
    rewrite Hrun. cbn [Effects.emit].
    eexists. split; [reflexivity|].
    cbn [Effects.trace]. rewrite deletes_app, Hdel.
    cbn [Effects.trace Delete.deletes app]. rewrite app_nil_r.
    rewrite <- concat_map, chunks_aux_concat; [reflexivity|lia|lia].
Qed.

Lemma delete_live_run_witness :
  Spec.listed 1 :: [Delete.mkRawItem Delete.JUndefined (Delete.JNumber 100)
                      (Delete.JString "k") (Delete.JString "n")
                      (Delete.JString "v"); Spec.listed 3] <> []
  /\ exists s',
       Delete.script
         (Spec.delete_world
            [Spec.listed 1;
             Delete.mkRawItem Delete.JUndefined (Delete.JNumber 100)
               (Delete.JString "k") (Delete.JString "n") (Delete.JString "v");
             Spec.listed 3] (fun _ => false))
         (Spec.live_by_key 1) 4 Delete.init
       = (s', Effects.Ret tt)
       /\ List.concat (Delete.deletes (Effects.trace s')) = [1; 3].
Proof.
  split; [discriminate|].
  apply (delete_live_run
           (Spec.delete_world
              [Spec.listed 1;
               Delete.mkRawItem Delete.JUndefined (Delete.JNumber 100)
                 (Delete.JString "k") (Delete.JString "n") (Delete.JString "v");
               Spec.listed 3] (fun _ => false))
           (Spec.live_by_key 1) 4
           [Spec.listed 1;
            Delete.mkRawItem Delete.JUndefined (Delete.JNumber 100)
              (Delete.JString "k") (Delete.JString "n") (Delete.JString "v");
            Spec.listed 3]);
    [reflexivity|reflexivity|reflexivity|reflexivity|reflexivity|
     cbn; lia|cbn; lia|discriminate].
Defined.

(** ** The size of every request *)

Lemma slice_batch_length (T : Type) (a : list T) (i n : Z) :
  0 <= i < Z.of_nat (List.length a) -> 1 <= n ->
  1 <= Z.of_nat (List.length (Js.slice a i (Some (i + n)))) <= n.
Proof.
  intros Hi Hn. rewrite slice_skip_take by lia.
  rewrite length_firstn, length_skipn. lia.
Qed.

Ltac quiet_log H :=
  cbv zeta;
  first
    [ apply quiet_bind; [|intros ?]
    | apply quiet_try_catch; [|intros ?]
    | apply quiet_for_each; intros ?
    | apply quiet_emit; apply H; reflexivity
    | apply quiet_call; apply H; reflexivity
    | solve [auto with quiet] ].

Section CreateRequests.

Variable world : Create.World.
Variable options : Types.ProgramOptions.
Variable bad : Create.event -> bool.

(** [bad] only singles out submissions. *)
Hypothesis Hbad : forall e, Create.is_mutating e = false -> bad e = false.

Hypothesis Hrow :
  forall fuel client row,
    Effects.quiet bad (Create.process_row world options fuel client row).

Lemma create_main_requests (fuel : nat) :
  Effects.quiet bad (Create.main world options fuel).
Proof.
  unfold Create.main, Create.getStoreInfo, Create.readCSVFiles,
    Create.processAllFiles, Create.process_file.
  quiet_log Hbad; [|repeat quiet_log Hbad].
  quiet_log Hbad;
    [destruct (Types.has_credentials options); repeat quiet_log Hbad|].
  quiet_log Hbad.
  - quiet_log Hbad; [quiet_log Hbad|].
    destruct (Create.select_files options a0); repeat quiet_log Hbad.
  - quiet_log Hbad; [quiet_log Hbad|].
    quiet_log Hbad; [quiet_log Hbad|].
    quiet_log Hbad; [|repeat quiet_log Hbad].
    quiet_log Hbad. quiet_log Hbad; [quiet_log Hbad|].
    quiet_log Hbad. apply Hrow.
Qed.

End CreateRequests.

Section CreateBatches.

Variable world : Create.World.
Variable options : Types.ProgramOptions.

Let n : Z := Js.num_or (Types.batchSize options) 50.

Hypothesis Hn : 1 <= n.

Lemma bad_post_log (e : Create.event) :
  Create.is_mutating e = false -> Spec.bad_post n e = false.
Proof. now destruct e. Qed.

Lemma post_loop_batches (row : Utils.Row) (productId : Z)
  (metafields : list Utils.Metafield) :
  forall (fuel : nat) (i : Z),
    0 <= i ->
    Effects.quiet (Spec.bad_post n)
      (Create.post_loop world fuel row productId metafields n i).
Proof.
  induction fuel as [|fuel IH]; intros i Hi; cbn [Create.post_loop].
  - apply quiet_diverge.
  - destruct (i <? Z.of_nat (List.length metafields)) eqn:E;
      [|apply quiet_ret].
    apply Z.ltb_lt in E.
    apply quiet_bind.
    + apply quiet_call. unfold Spec.bad_post.
      pose proof (slice_batch_length _ metafields i n (conj Hi E) Hn) as [H1 H2].
      apply negb_false_iff, andb_true_iff.
      split; apply Z.leb_le; assumption.
    + intros _. apply quiet_bind; [apply quiet_modify|]. intros _.
      apply quiet_bind; [now apply quiet_emit|]. intros _.
      apply IH. lia.
Qed.

Lemma process_row_batches (fuel : nat) (client : option Client.t)
  (row : Utils.Row) :
  Effects.quiet (Spec.bad_post n)
    (Create.process_row world options fuel client row).
Proof.
  unfold Create.process_row.
  destruct (Js.parseInt (Utils.get row "id")) as [productId|];
    [|apply quiet_ret].
  destruct (productId =? 0); [apply quiet_ret|].
  apply quiet_bind; [apply quiet_modify|]. intros _.
  match goal with |- context [if ?c then _ else _] => destruct c end.
  - unfold Create.submit_row. fold n.
    apply quiet_try_catch; [now apply post_loop_batches|].
    intros msg. apply quiet_bind; [apply quiet_modify|]. intros _.
    now apply quiet_emit.
  - destruct (Types.is_dryRun options);
      [now apply quiet_emit|apply quiet_ret].
Qed.

Lemma create_main_batches (fuel : nat) :
  Effects.quiet (Spec.bad_post n) (Create.main world options fuel).
Proof.
  apply create_main_requests; [exact bad_post_log|].
  intros. apply process_row_batches.
Qed.

End CreateBatches.

Section DeleteBatches.

Variable world : Delete.World.
Variable n : Z.
Hypothesis Hn : 1 <= n.

Let within (T : Type) (g : list T) : Prop :=
  1 <= Z.of_nat (List.length g) <= n.

Lemma chunk_loop_within (T : Type) (array : list T) :
  forall (fuel : nat) (i : Z) (chunks groups : list (list T)),
    0 <= i ->
    Forall (within T) chunks ->
    Utils.chunk_loop fuel array n i chunks = Some groups ->
    Forall (within T) groups.
Proof.
  induction fuel as [|fuel IH]; intros i chunks groups Hi Hc H;
    [discriminate H|].
  cbn [Utils.chunk_loop] in H.
  destruct (i <? Z.of_nat (List.length array)) eqn:E.
  - apply Z.ltb_lt in E. eapply IH; [| |exact H]; [lia|].
    apply Forall_app. split; [exact Hc|]. constructor; [|constructor].
    now apply slice_batch_length.
  - now inversion H; subst.
Qed.

Lemma delete_loop_within (total : nat) :
  forall (batches : list (list Delete.ProductMetafield))
         (index success failed : nat),
    Forall (within _) batches ->
    Effects.quiet (Spec.bad_delete n)
      (Delete.delete_loop world total batches index success failed).
Proof.
  induction batches as [|batch rest IH]; intros index success failed Hb;
    cbn [Delete.delete_loop]; [apply quiet_ret|].
  inversion Hb as [|? ? Hbatch Hrest]; subst.
  apply quiet_bind; [now apply quiet_emit|]. intros _.
  apply quiet_bind.
  - apply quiet_try_catch.
    + apply quiet_bind.
      * apply quiet_call. unfold Spec.bad_delete. rewrite length_map.
        destruct Hbatch as [H1 H2].
        apply negb_false_iff, andb_true_iff. split; now apply Z.leb_le.
      * intros _. apply quiet_bind; [now apply quiet_emit|]. intros _.
        apply quiet_ret.
    + intros msg. apply quiet_bind; [now apply quiet_emit|]. intros _.
      apply quiet_ret.
  - intros r. now apply IH.
Qed.

Lemma deleteMetafields_within (fuel : nat) (client : Client.t)
  (metafields : list Delete.ProductMetafield) :
  Effects.quiet (Spec.bad_delete n)
    (Delete.deleteMetafields world fuel client metafields n).
Proof.
  unfold Delete.deleteMetafields, Utils.chunk.
  destruct (Utils.chunk_loop fuel metafields n 0 []) as [batches|] eqn:E;
    [|apply quiet_diverge].
  apply delete_loop_within.
  eapply chunk_loop_within; [| |exact E]; [lia|constructor].
Qed.

End DeleteBatches.

Section DeleteRequests.

Variable world : Delete.World.
Variable options : Types.DeleteOptions.
Variable bad : Delete.event -> bool.

Hypothesis Hbad : forall e, Delete.is_mutating e = false -> bad e = false.

Hypothesis Hdelete :
  forall fuel client metafields,
    Effects.quiet bad
      (Delete.deleteMetafields world fuel client metafields
         (Js.num_or (Types.batchSize (Types.program options)) 50)).

Lemma fetch_loop_requests (yielded : list Delete.RawItem)
  (failure : option string) :
  forall items,
    Effects.quiet bad (Delete.fetch_loop options yielded failure items).
Proof.
  induction yielded as [|item rest IH]; intros items; cbn [Delete.fetch_loop].
  - destruct failure; quiet_log Hbad.
  - match goal with |- context [if ?c then _ else _] => destruct c end;
      [quiet_log Hbad|apply IH].
Qed.

Lemma delete_main_requests (fuel : nat) :
  Effects.quiet bad (Delete.main world options fuel).
Proof.
  unfold Delete.main, Delete.getStoreInfo, Delete.fetchMetafields.
  quiet_log Hbad; [|repeat quiet_log Hbad].
  quiet_log Hbad;
    [destruct (Types.has_credentials (Types.program options));
     repeat quiet_log Hbad|].
  quiet_log Hbad.
  { destruct (Types.is_dryRun (Types.program options)); [quiet_log Hbad|].
    destruct a; quiet_log Hbad. }
  destruct a as [client|]; [|quiet_log Hbad].
  quiet_log Hbad.
  - quiet_log Hbad; [|repeat quiet_log Hbad].
    quiet_log Hbad; [quiet_log Hbad|].
    quiet_log Hbad; [apply fetch_loop_requests|].
    match goal with
    | |- context [match ?x with [] => _ | _ :: _ => _ end] => destruct x
    end; repeat quiet_log Hbad.
  - match goal with
    | |- context [match ?x with [] => _ | _ :: _ => _ end] => destruct x
    end; [quiet_log Hbad|].
    destruct (Types.is_dryRun (Types.program options)); [quiet_log Hbad|].
    quiet_log Hbad; [apply Hdelete|quiet_log Hbad].
Qed.

End DeleteRequests.

Lemma bad_delete_log (n : Z) (e : Delete.event) :
  Delete.is_mutating e = false -> Spec.bad_delete n e = false.
Proof. now destruct e. Qed.

(** X11: with a batch size of one or more, every submission of the create
    script carries at least one record and at most the batch size, and every
    deletion request of the delete script carries at least one identifier
    and at most the batch size, whatever the files, the listing and the
    remote answers are and however far the run has got. *)
Theorem request_sizes
  (cworld : Create.World) (copts : Types.ProgramOptions)
  (dworld : Delete.World) (dopts : Types.DeleteOptions) (fuel : nat) :
  1 <= Js.num_or (Types.batchSize copts) 50 ->
  1 <= Js.num_or (Types.batchSize (Types.program dopts)) 50 ->
  existsb (Spec.bad_post (Js.num_or (Types.batchSize copts) 50))
    (Effects.trace (fst (Create.script cworld copts fuel Create.init)))
  = false
  /\ existsb
       (Spec.bad_delete (Js.num_or (Types.batchSize (Types.program dopts)) 50))
       (Effects.trace (fst (Delete.script dworld dopts fuel Delete.init)))
     = false.
Proof.
  intros Hc Hd. split.
  - unfold Create.script.
    match goal with |- context [if ?c then _ else _] => destruct c end;
      [reflexivity|].
    rewrite <- (default_dryRun_batchSize copts) in *.
    now apply (create_main_batches cworld (Types.default_dryRun copts) Hc).
  - unfold Delete.script.
    cbn [Delete.with_program Types.program Types.key Types.namespace
           Types.productId].
    match goal with |- context [if ?c then _ else _] => destruct c end;
      [reflexivity|].
    destruct (Delete.is_undefined (Types.key dopts)
              && Delete.is_undefined (Types.namespace dopts)
              && Delete.is_undefined (Types.productId dopts));
      [reflexivity|].
    apply delete_main_requests; [apply bad_delete_log| |reflexivity].
    intros f client metafields.
    cbn [Delete.with_program Types.program].
    rewrite default_dryRun_batchSize.
    now apply deleteMetafields_within.
Qed.

Lemma request_sizes_witness :
  1 <= Js.num_or (Types.batchSize (Spec.live_options 2)) 50
  /\ 1 <= Js.num_or
            (Types.batchSize (Types.program (Spec.live_by_key 2))) 50
  /\ existsb (Spec.bad_post (Js.num_or (Types.batchSize (Spec.live_options 2)) 50))
       (Effects.trace
          (fst (Create.script
                  (Spec.one_file [Spec.example_row] (fun _ => true))
                  (Spec.live_options 2) 5 Create.init)))
     = false
  /\ existsb
       (Spec.bad_delete
          (Js.num_or (Types.batchSize (Types.program (Spec.live_by_key 2))) 50))
       (Effects.trace
          (fst (Delete.script
                  (Spec.delete_world
                     [Spec.listed 1; Spec.listed 2; Spec.listed 3]
                     (fun _ => true))
                  (Spec.live_by_key 2) 5 Delete.init)))
     = false.
Proof.
  split; [cbn; lia|]. split; [cbn; lia|].
  apply (request_sizes
           (Spec.one_file [Spec.example_row] (fun _ => true))
           (Spec.live_options 2)
           (Spec.delete_world [Spec.listed 1; Spec.listed 2; Spec.listed 3]
              (fun _ => true))
           (Spec.live_by_key 2) 5); cbn; lia.
Defined.

(** ** The counters of the create script *)

Section Keeps.

Context {E L : Type}.
Variable inv : L -> Prop.

Lemma keeps_ret {A : Type} (a : A) :
  Effects.keeps inv (Effects.ret (E := E) (L := L) a).
Proof. intros s H. exact H. Qed.

Lemma keeps_exit {A : Type} (code : Z) :
  Effects.keeps inv (@Effects.exit E L A code).
Proof. intros s H. exact H. Qed.

Lemma keeps_get_locals : Effects.keeps inv (@Effects.get_locals E L).
Proof. intros s H. exact H. Qed.

Lemma keeps_emit (e : E) : Effects.keeps inv (Effects.emit (L := L) e).
Proof. intros s H. exact H. Qed.

Lemma keeps_call {A : Type} (e : E) (answer : list E -> Effects.result A) :
  Effects.keeps inv (Effects.call (L := L) e answer).
Proof.
  intros s H. unfold Effects.call. now destruct (answer (Effects.trace s)).
Qed.

Lemma keeps_modify (f : L -> L) :
  (forall c, inv c -> inv (f c)) ->
  Effects.keeps inv (Effects.modify (E := E) f).
Proof. intros Hf s H. cbn. now apply Hf. Qed.

Lemma keeps_bind {A B : Type} (m : Effects.M E L A)
  (f : A -> Effects.M E L B) :
  Effects.keeps inv m -> (forall a, Effects.keeps inv (f a)) ->
  Effects.keeps inv (Effects.bind m f).
Proof.
  intros Hm Hf s H. unfold Effects.bind.
  specialize (Hm s H). destruct (m s) as [s' [a|msg|code|]]; cbn in *; trivial.
  now apply Hf.
Qed.

Lemma keeps_try_catch {A : Type} (m : Effects.M E L A)
  (h : string -> Effects.M E L A) :
  Effects.keeps inv m -> (forall msg, Effects.keeps inv (h msg)) ->
  Effects.keeps inv (Effects.try_catch m h).
Proof.
  intros Hm Hh s H. unfold Effects.try_catch.
  specialize (Hm s H). destruct (m s) as [s' [a|msg|code|]]; cbn in *; trivial.
  now apply Hh.
Qed.

Lemma keeps_for_each {A : Type} (xs : list A)
  (body : A -> Effects.M E L unit) :
  (forall x, Effects.keeps inv (body x)) ->
  Effects.keeps inv (Effects.for_each xs body).
Proof.
  intros Hb. induction xs as [|x xs IH]; cbn [Effects.for_each].
  - apply keeps_ret.
  - apply keeps_bind; trivial.
Qed.

End Keeps.

Section CreateCounters.

Variable world : Create.World.
Variable options : Types.ProgramOptions.

Let n : Z := Js.num_or (Types.batchSize options) 50.

Hypothesis Hn : 1 <= n.

(** One turn of the batch loop, at the end of a prefix of the records. *)
Lemma post_loop_step (row : Utils.Row) (productId : Z) (fuel : nat)
  (pre : list Utils.Metafield) (x : Utils.Metafield)
  (rest : list Utils.Metafield)
  (s : Effects.state Create.event Create.Counters) :
  let g := firstn (Z.to_nat n) (x :: rest) in
  let rest' := skipn (Z.to_nat n) (x :: rest) in
  Create.post_loop world (S fuel) row productId (pre ++ x :: rest) n
    (Z.of_nat (List.length pre)) s
  = match Create.post world (Effects.trace s) g with
    | Effects.Ok _ =>
        Create.post_loop world fuel row productId ((pre ++ g) ++ rest') n
          (Z.of_nat (List.length pre) + n)
          (Effects.mkState
             ((Effects.trace s ++ [Create.Post g])
              ++ [Create.LogCreated (List.length g) productId
                    (Utils.get row "sku")])
             (Create.count_success (List.length g) (Effects.locals s)))
    | Effects.Err msg =>
        (Effects.mkState (Effects.trace s ++ [Create.Post g])
           (Effects.locals s), Effects.Throw msg)
    end.
Proof.
  cbv zeta. cbn [Create.post_loop].
  destruct (_ <? _) eqn:E.
  2:{ apply Z.ltb_ge in E. rewrite length_app in E.
      cbn [List.length] in E. lia. }
  rewrite slice_from_prefix by lia.
  unfold Effects.bind at 1. unfold Effects.call.
  destruct (Create.post world (Effects.trace s) _) as [[]|msg];
    [|reflexivity].
  rewrite <- (app_assoc pre), firstn_skipn. reflexivity.
Qed.

(** The batch loop adds to [successCount] at most the number of records it
    has not passed yet, and touches no other counter. *)
Lemma post_loop_success (row : Utils.Row) (productId : Z) :
  forall (fuel : nat) (rest pre : list Utils.Metafield) (i : Z)
         (s : Effects.state Create.event Create.Counters),
    Z.of_nat (List.length pre) <= i ->
    (rest <> [] -> i = Z.of_nat (List.length pre)) ->
    let c := Effects.locals s in
    let c' := Effects.locals
                (fst (Create.post_loop world fuel row productId (pre ++ rest)
                        n i s)) in
    (Create.successCount c' <= Create.successCount c + List.length rest)%nat
    /\ Create.totalMetafields c' = Create.totalMetafields c
    /\ Create.totalProducts c' = Create.totalProducts c
    /\ Create.errorCount c' = Create.errorCount c.
Proof.
  induction fuel as [|fuel IH]; intros rest pre i s Hi Hrest; cbv zeta.
  - cbn. repeat split. lia.
  - destruct rest as [|x rest].
    + rewrite app_nil_r in *. cbn [Create.post_loop].
      destruct (i <? Z.of_nat (List.length pre)) eqn:E;
        [apply Z.ltb_lt in E; lia|].
      cbn. repeat split. lia.
    + assert (i = Z.of_nat (List.length pre)) as ->
          by (apply Hrest; discriminate).
      rewrite post_loop_step.
      set (g := firstn (Z.to_nat n) (x :: rest)).
      set (rest' := skipn (Z.to_nat n) (x :: rest)).
      assert (Hlen : (List.length g + List.length rest'
                      = List.length (x :: rest))%nat)
        by (rewrite <- length_app; subst g rest'; now rewrite firstn_skipn).
      destruct (Create.post world (Effects.trace s) g) as [[]|msg].
      * match goal with
        | |- context [Create.post_loop world fuel row productId _ n ?j ?st] =>
            destruct (IH rest' (pre ++ g) j st) as (H1 & H2 & H3 & H4)
        end.
        -- rewrite length_app. subst g. rewrite length_firstn.
           cbn [List.length]. lia.
        -- intros Hne. rewrite length_app. subst g. rewrite length_firstn.
           destruct (Nat.le_gt_cases (Z.to_nat n) (List.length (x :: rest)))
             as [Hle|Hgt].
           ++ rewrite Nat.min_l by trivial. lia.
           ++ exfalso. apply Hne. subst rest'. apply skipn_all2. lia.
        -- cbn [Effects.locals Create.count_success Create.successCount
                  Create.totalMetafields Create.totalProducts
                  Create.errorCount] in H1, H2, H3, H4.
           rewrite H2, H3, H4. repeat split. lia.
      * cbn. repeat split. lia.
Qed.

Lemma process_row_counters (fuel : nat) (client : option Client.t)
  (row : Utils.Row) :
  Effects.keeps Spec.counters_ok
    (Create.process_row world options fuel client row).
Proof.
  intros s [Hs He]. unfold Create.process_row.
  destruct (Js.parseInt (Utils.get row "id")) as [productId|];
    [|now split].
  destruct (productId =? 0); [now split|].
  unfold Effects.bind at 1. cbn [Effects.modify].
  set (metafields := Utils.transformToMetafields row productId).
  match goal with |- context [if ?c then _ else _] => destruct c end.
  - unfold Create.submit_row, Effects.try_catch. fold n.
    match goal with
    | |- context [Create.post_loop world fuel row productId metafields n 0 ?st] =>
        pose proof (post_loop_success row productId fuel metafields [] 0 st)
          as Hloop;
        cbv zeta in Hloop; cbn [app List.length] in Hloop;
        specialize (Hloop ltac:(lia) ltac:(reflexivity));
        destruct (Create.post_loop world fuel row productId metafields n 0 st)
          as [s' [[]|msg|code|]]
    end;
      cbn [fst Effects.locals Create.count_product Create.successCount
             Create.totalMetafields Create.totalProducts Create.errorCount
             Effects.bind Effects.modify Effects.emit Create.count_error]
        in *;
      destruct Hloop as (H1 & H2 & H3 & H4);
      unfold Spec.counters_ok;
      cbn [Create.count_error Create.successCount Create.totalMetafields
             Create.totalProducts Create.errorCount];
      split; lia.
  - destruct (Types.is_dryRun options); cbn; split; cbn; lia.
Qed.

Lemma create_main_counters (fuel : nat) :
  Effects.keeps Spec.counters_ok (Create.main world options fuel).
Proof.
  unfold Create.main, Create.getStoreInfo, Create.readCSVFiles,
    Create.processAllFiles, Create.process_file.
  apply keeps_try_catch.
  2:{ intros msg. apply keeps_bind; [apply keeps_emit|].
      intros _. apply keeps_exit. }
  apply keeps_bind.
  { destruct (Types.has_credentials options); [|apply keeps_ret].
    apply keeps_bind; [apply keeps_emit|]. intros _. apply keeps_ret. }
  intros client. apply keeps_bind.
  { apply keeps_bind; [apply keeps_call|]. intros files. cbv zeta.
    destruct (Create.select_files options files); [apply keeps_ret|].
    apply keeps_bind; [apply keeps_call|]. intros data. apply keeps_ret. }
  intros _. apply keeps_bind; [apply keeps_call|]. intros files. cbv zeta.
  apply keeps_bind.
  { apply keeps_modify. intros _ _. split; cbn; lia. }
  intros _. apply keeps_bind.
  { apply keeps_for_each. intros file.
    apply keeps_bind; [apply keeps_call|]. intros data.
    apply keeps_for_each. intros row. apply process_row_counters. }
  intros _. apply keeps_bind; [apply keeps_get_locals|].
  intros c. apply keeps_emit.
Qed.

End CreateCounters.

(** X12: with a batch size of one or more, the counters of the create script
    never show more created records than records to create, nor more errors
    than products processed, whatever the files and the remote answers are
    and however far the run has got. *)
Theorem create_counters_consistent (world : Create.World)
  (opts : Types.ProgramOptions) (fuel : nat) :
  1 <= Js.num_or (Types.batchSize opts) 50 ->
  Spec.counters_ok
    (Effects.locals (fst (Create.script world opts fuel Create.init))).
Proof.
  intros Hn. unfold Create.script.
  match goal with |- context [if ?c then _ else _] => destruct c end.
  - split; cbn; lia.
  - apply create_main_counters.
    + now rewrite default_dryRun_batchSize.
    + split; cbn; lia.
Qed.

Lemma create_counters_consistent_witness :
  1 <= Js.num_or (Types.batchSize (Spec.live_options 1)) 50
  /\ Spec.counters_ok
       (Effects.locals
          (fst (Create.script
                  (Spec.one_file [Spec.two_column_row; Spec.example_row]
                     (fun body =>
                        match body with
                        | m :: _ => String.eqb (Utils.key m) "key_1"
                        | [] => true
                        end))
                  (Spec.live_options 1) 6 Create.init))).
Proof.
  split; [cbn; lia|].
  apply (create_counters_consistent
           (Spec.one_file [Spec.two_column_row; Spec.example_row]
              (fun body =>
                 match body with
                 | m :: _ => String.eqb (Utils.key m) "key_1"
                 | [] => true
                 end))
           (Spec.live_options 1) 6).
  cbn. lia.
Defined.

(** ** How a create run ends *)

Section Settles.

Context {E L : Type}.

Lemma returns_ret {A : Type} (a : A) :
  Effects.returns (Effects.ret (E := E) (L := L) a).
Proof. intros s. now exists s, a. Qed.

Lemma returns_emit (e : E) : Effects.returns (Effects.emit (L := L) e).
Proof. intros s. eexists. exists tt. reflexivity. Qed.

Lemma returns_modify (f : L -> L) :
  Effects.returns (Effects.modify (E := E) f).
Proof. intros s. eexists. exists tt. reflexivity. Qed.

Lemma returns_get_locals : Effects.returns (@Effects.get_locals E L).
Proof. intros s. eexists. eexists. reflexivity. Qed.

Lemma returns_bind {A B : Type} (m : Effects.M E L A)
  (f : A -> Effects.M E L B) :
  Effects.returns m -> (forall a, Effects.returns (f a)) ->
  Effects.returns (Effects.bind m f).
Proof.
  intros Hm Hf s. destruct (Hm s) as (s1 & a & Hs1).
  destruct (Hf a s1) as (s2 & b & Hs2).
  exists s2, b. unfold Effects.bind. now rewrite Hs1.
Qed.

Lemma returns_for_each {A : Type} (xs : list A)
  (body : A -> Effects.M E L unit) :
  (forall x, In x xs -> Effects.returns (body x)) ->
  Effects.returns (Effects.for_each xs body).
Proof.
  induction xs as [|x xs IH]; intros Hb; cbn [Effects.for_each].
  - apply returns_ret.
  - apply returns_bind; [apply Hb; now left|].
    intros _. apply IH. intros y Hy. apply Hb. now right.
Qed.

Variable cause : list E -> string -> Prop.

Lemma returns_fails_only {A : Type} (m : Effects.M E L A) :
  Effects.returns m -> Effects.fails_only cause m.
Proof.
  intros H s. destruct (H s) as (s' & a & Hs). exists s'. left. now exists a.
Qed.

Lemma fails_only_bind {A B : Type} (m : Effects.M E L A)
  (f : A -> Effects.M E L B) :
  Effects.fails_only cause m ->
  (forall a, Effects.fails_only cause (f a)) ->
  Effects.fails_only cause (Effects.bind m f).
Proof.
  intros Hm Hf s. unfold Effects.bind.
  destruct (Hm s) as (s1 & [(a & Hs1)|(msg & Hs1 & Hc)]); rewrite Hs1.
  - apply Hf.
  - exists s1. right. now exists msg.
Qed.

Lemma fails_only_for_each {A : Type} (xs : list A)
  (body : A -> Effects.M E L unit) :
  (forall x, Effects.fails_only cause (body x)) ->
  Effects.fails_only cause (Effects.for_each xs body).
Proof.
  intros Hb. induction xs as [|x xs IH]; cbn [Effects.for_each].
  - apply returns_fails_only, returns_ret.
  - apply fails_only_bind; trivial.
Qed.

End Settles.

Section CreateEnds.

Variable world : Create.World.
Variable options : Types.ProgramOptions.
Variable fuel : nat.

Hypothesis Hn : 1 <= Js.num_or (Types.batchSize options) 50.

(** The rows of every file are shorter than the fuel. *)
Hypothesis Hrows :
  forall t file rows,
    Create.parseCSVFile world t file = Effects.Ok rows ->
    Forall (fun row => (List.length row < fuel)%nat) rows.

Lemma read_dir_fails_only :
  Effects.fails_only (Spec.read_failure world)
    (Effects.call (L := Create.Counters) Create.ReadDir (Create.readdir world)).
Proof.
  intros s. unfold Effects.call.
  destruct (Create.readdir world (Effects.trace s)) as [files|msg] eqn:E;
    eexists; [left; now exists files|].
  right. exists msg. split; [reflexivity|].
  exists (Effects.trace s). left. now split.
Qed.

Lemma read_file_fails_only (file : string) :
  Effects.fails_only (Spec.read_failure world)
    (Effects.call (L := Create.Counters) (Create.ReadFile file)
       (fun t => Create.parseCSVFile world t file)).
Proof.
  intros s. unfold Effects.call.
  destruct (Create.parseCSVFile world (Effects.trace s) file) as [rows|msg]
    eqn:E; eexists; [left; now exists rows|].
  right. exists msg. split; [reflexivity|].
  exists (Effects.trace s). right. exists file. now split.
Qed.

Lemma process_file_fails_only (client : option Client.t) (file : string) :
  Effects.fails_only (Spec.read_failure world)
    (Create.process_file world options fuel client file).
Proof.
  intros s. unfold Create.process_file, Effects.bind, Effects.call.
  destruct (Create.parseCSVFile world (Effects.trace s) file) as [rows|msg]
    eqn:E.
  - destruct (process_rows_return world options fuel client Hn rows
                (Effects.mkState (Effects.trace s ++ [Create.ReadFile file])
                   (Effects.locals s)) (Hrows _ _ _ E)) as (s' & Hs').
    exists s'. left. exists tt. exact Hs'.
  - eexists. right. exists msg. split; [reflexivity|].
    exists (Effects.trace s). right. exists file. now split.
Qed.

Lemma create_body_fails_only (client : option Client.t) :
  Effects.fails_only (Spec.read_failure world)
    (Effects.bind (Create.readCSVFiles world options)
       (fun _ => Create.processAllFiles world options fuel client)).
Proof.
  unfold Create.readCSVFiles, Create.processAllFiles.
  apply fails_only_bind.
  - apply fails_only_bind; [apply read_dir_fails_only|].
    intros files. cbv zeta.
    destruct (Create.select_files options files);
      [apply returns_fails_only, returns_ret|].
    apply fails_only_bind; [apply read_file_fails_only|].
    intros data. apply returns_fails_only, returns_ret.
  - intros _. apply fails_only_bind; [apply read_dir_fails_only|].
    intros files. cbv zeta.
    apply fails_only_bind; [apply returns_fails_only, returns_modify|].
    intros _. apply fails_only_bind.
    + apply fails_only_for_each. intros file. apply process_file_fails_only.
    + intros _. apply fails_only_bind;
        [apply returns_fails_only, returns_get_locals|].
      intros c. apply returns_fails_only, returns_emit.
Qed.

Lemma create_main_ends (s : Effects.state Create.event Create.Counters) :
  exists s',
    Create.main world options fuel s = (s', Effects.Ret tt)
    \/ (Create.main world options fuel s = (s', Effects.Exit 1)
        /\ exists msg t,
             Effects.trace s' = t ++ [Create.LogFatal msg]
             /\ Spec.read_failure world t msg).
Proof.
  unfold Create.main, Effects.try_catch.
  set (body := Effects.bind _ _).
  assert (Hbody : Effects.fails_only (Spec.read_failure world) body).
  { subst body. apply fails_only_bind.
    - destruct (Types.has_credentials options);
        [|apply returns_fails_only, returns_ret].
      apply returns_fails_only, returns_bind; [apply returns_emit|].
      intros _. apply returns_ret.
    - intros client. apply create_body_fails_only. }
  destruct (Hbody s) as (s1 & [([] & Hs1)|(msg & Hs1 & Hcause)]);
    rewrite Hs1.
  - exists s1. now left.
  - eexists. right. split; [reflexivity|].
    exists msg, (Effects.trace s1). now split.
Qed.

End CreateEnds.

(** X13: with a batch size of one or more and fuel above the number of
    columns of every row, a create run always ends: it returns normally, or
    it exits with status 1.  The exit has two causes only: the
    missing-credentials check of a live run, before anything is read; or a
    reading of the directory or of a file that failed, which is the last
    thing the run did before the error was logged at top level with the
    message of that reading.  In particular a rejected submission never
    makes the run exit. *)
Theorem create_run_ends (world : Create.World)
  (opts : Types.ProgramOptions) (fuel : nat) :
  1 <= Js.num_or (Types.batchSize opts) 50 ->
  (forall t file rows,
     Create.parseCSVFile world t file = Effects.Ok rows ->
     Forall (fun row => (List.length row < fuel)%nat) rows) ->
  exists s',
    Create.script world opts fuel Create.init = (s', Effects.Ret tt)
    \/ (Create.script world opts fuel Create.init = (s', Effects.Exit 1)
        /\ ((Effects.trace s' = [Create.LogConfigError]
             /\ Types.is_dryRun (Types.default_dryRun opts) = false
             /\ Types.has_credentials opts = false)
            \/ (exists msg t,
                  Effects.trace s' = t ++ [Create.LogFatal msg]
                  /\ Spec.read_failure world t msg))).
Proof.
  intros Hn Hrows. unfold Create.script.
  rewrite missing_credential_test.
  destruct (default_dryRun_credentials opts) as (_ & _ & ->).
  destruct (negb (Types.is_dryRun (Types.default_dryRun opts))
            && negb (Types.has_credentials opts)) eqn:Hconf.
  - apply andb_true_iff in Hconf. destruct Hconf as [Hlive Hcred].
    apply negb_true_iff in Hlive, Hcred.
    eexists. right. split; [reflexivity|]. left. now repeat split.
  - destruct (create_main_ends world (Types.default_dryRun opts) fuel)
      with (s := Create.init) as (s' & [Hret|(Hexit & msg & t & Ht & Hc)]).
    + now rewrite default_dryRun_batchSize.
    + exact Hrows.
    + exists s'. now left.
    + exists s'. right. split; [exact Hexit|]. right. now exists msg, t.
Qed.

Lemma one_file_rows (rows : list Utils.Row)
  (accept : list Utils.Metafield -> bool) (fuel : nat) :
  Forall (fun row => (List.length row < fuel)%nat) rows ->
  forall t file rows',
    Create.parseCSVFile (Spec.one_file rows accept) t file = Effects.Ok rows' ->
    Forall (fun row => (List.length row < fuel)%nat) rows'.
Proof.
  intros H t file rows' E. cbn in E. now inversion E; subst.
Qed.

Lemma create_run_ends_witness :
  1 <= Js.num_or (Types.batchSize (Spec.live_options 1)) 50
  /\ exists s',
       Create.script (Spec.one_file [Spec.two_column_row] (fun _ => false))
         (Spec.live_options 1) 4 Create.init = (s', Effects.Ret tt)
       \/ (Create.script (Spec.one_file [Spec.two_column_row] (fun _ => false))
             (Spec.live_options 1) 4 Create.init = (s', Effects.Exit 1)
           /\ ((Effects.trace s' = [Create.LogConfigError]
                /\ Types.is_dryRun
                     (Types.default_dryRun (Spec.live_options 1)) = false
                /\ Types.has_credentials (Spec.live_options 1) = false)
               \/ (exists msg t,
                     Effects.trace s' = t ++ [Create.LogFatal msg]
                     /\ Spec.read_failure
                          (Spec.one_file [Spec.two_column_row] (fun _ => false))
                          t msg))).
Proof.
  split; [cbn; lia|].
  apply (create_run_ends
           (Spec.one_file [Spec.two_column_row] (fun _ => false))
           (Spec.live_options 1) 4); [cbn; lia|].
  apply one_file_rows. repeat constructor.
Defined.

Section CreateCompletes.

Variable world : Create.World.
Variable options : Types.ProgramOptions.
Variable fuel : nat.

Hypothesis Hn : 1 <= Js.num_or (Types.batchSize options) 50.

Hypothesis Hrows :
  forall t file rows,
    Create.parseCSVFile world t file = Effects.Ok rows ->
    Forall (fun row => (List.length row < fuel)%nat) rows.

(** The directory and the files can be read. *)
Hypothesis Hdir : forall t, exists files, Create.readdir world t = Effects.Ok files.

Hypothesis Hfile :
  forall t file, exists rows,
    Create.parseCSVFile world t file = Effects.Ok rows.

Lemma read_dir_returns :
  Effects.returns
    (Effects.call (L := Create.Counters) Create.ReadDir (Create.readdir world)).
Proof.
  intros s. unfold Effects.call.
  destruct (Hdir (Effects.trace s)) as (files & ->). eexists. now exists files.
Qed.

Lemma read_file_returns (file : string) :
  Effects.returns
    (Effects.call (L := Create.Counters) (Create.ReadFile file)
       (fun t => Create.parseCSVFile world t file)).
Proof.
  intros s. unfold Effects.call.
  destruct (Hfile (Effects.trace s) file) as (rows & ->).
  eexists. now exists rows.
Qed.

Lemma process_file_returns (client : option Client.t) (file : string) :
  Effects.returns (Create.process_file world options fuel client file).
Proof.
  intros s. unfold Create.process_file, Effects.bind, Effects.call.
  destruct (Hfile (Effects.trace s) file) as (rows & E). rewrite E.
  destruct (process_rows_return world options fuel client Hn rows
              (Effects.mkState (Effects.trace s ++ [Create.ReadFile file])
                 (Effects.locals s)) (Hrows _ _ _ E)) as (s' & Hs').
  exists s', tt. exact Hs'.
Qed.

Lemma create_main_returns :
  Effects.returns (Create.main world options fuel).
Proof.
  assert (Hbody :
    Effects.returns
      (Effects.bind
         (if Types.has_credentials options
          then Effects.bind Create.getStoreInfo
                 (fun _ => Effects.ret (Client.of_options options))
          else Effects.ret None)
         (fun client =>
            Effects.bind (Create.readCSVFiles world options)
              (fun _ => Create.processAllFiles world options fuel client)))).
  { apply returns_bind.
    - destruct (Types.has_credentials options); [|apply returns_ret].
      apply returns_bind; [apply returns_emit|]. intros _. apply returns_ret.
    - intros client. unfold Create.readCSVFiles, Create.processAllFiles.
      apply returns_bind.
      + apply returns_bind; [apply read_dir_returns|]. intros files. cbv zeta.
        destruct (Create.select_files options files); [apply returns_ret|].
        apply returns_bind; [apply read_file_returns|].
        intros data. apply returns_ret.
      + intros _. apply returns_bind; [apply read_dir_returns|].
        intros files. cbv zeta.
        apply returns_bind; [apply returns_modify|]. intros _.
        apply returns_bind.
        * apply returns_for_each. intros file _. apply process_file_returns.
        * intros _. apply returns_bind; [apply returns_get_locals|].
          intros c. apply returns_emit. }
  intros s. unfold Create.main, Effects.try_catch.
  destruct (Hbody s) as (s' & [] & Hs'). rewrite Hs'. now exists s', tt.
Qed.

End CreateCompletes.

(** X14: when the directory and every file can be read, a create run in
    dry-run mode or with credentials returns normally whatever the remote
    answers: no rejected submission changes how the run ends (batch size of
    one or more, fuel above the number of columns of every row). *)
Theorem create_run_completes (world : Create.World)
  (opts : Types.ProgramOptions) (fuel : nat) :
  1 <= Js.num_or (Types.batchSize opts) 50 ->
  (forall t file rows,
     Create.parseCSVFile world t file = Effects.Ok rows ->
     Forall (fun row => (List.length row < fuel)%nat) rows) ->
  (forall t, exists files, Create.readdir world t = Effects.Ok files) ->
  (forall t file, exists rows,
     Create.parseCSVFile world t file = Effects.Ok rows) ->
  Types.is_dryRun (Types.default_dryRun opts) = true
  \/ Types.has_credentials opts = true ->
  exists s', Create.script world opts fuel Create.init = (s', Effects.Ret tt).
Proof.
  intros Hn Hrows Hdir Hfile Hconf. unfold Create.script.
  rewrite missing_credential_test.
  destruct (default_dryRun_credentials opts) as (_ & _ & ->).
  replace (negb (Types.is_dryRun (Types.default_dryRun opts))
           && negb (Types.has_credentials opts)) with false
    by (destruct Hconf as [-> | ->]; cbn; now rewrite ?andb_false_r).
  destruct (create_main_returns world (Types.default_dryRun opts) fuel)
    with (s := Create.init) as (s' & [] & Hs'); trivial.
  - now rewrite default_dryRun_batchSize.
  - now exists s'.
Qed.

Lemma create_run_completes_witness :
  1 <= Js.num_or (Types.batchSize (Spec.live_options 1)) 50
  /\ (Types.is_dryRun (Types.default_dryRun (Spec.live_options 1)) = true
      \/ Types.has_credentials (Spec.live_options 1) = true)
  /\ exists s',
       Create.script (Spec.one_file [Spec.two_column_row] (fun _ => false))
         (Spec.live_options 1) 4 Create.init = (s', Effects.Ret tt).
Proof.
  split; [cbn; lia|]. split; [right; reflexivity|].
  apply (create_run_completes
           (Spec.one_file [Spec.two_column_row] (fun _ => false))
           (Spec.live_options 1) 4).
  - cbn. lia.
  - apply one_file_rows. repeat constructor.
  - intros t. now exists ["products.csv"].
  - intros t file. now exists [Spec.two_column_row].
  - right. reflexivity.
Defined.

(** ** A row in a dry run and in a live run *)

Section CreateAccepts.

Variable world : Create.World.
Variable options : Types.ProgramOptions.

Hypothesis Hn : 1 <= Js.num_or (Types.batchSize options) 50.

(** The remote accepts every submission. *)
Hypothesis Hok : forall t body, Create.post world t body = Effects.Ok tt.

Lemma post_loop_accepts (row : Utils.Row) (productId : Z) :
  forall (fuel : nat) (rest pre : list Utils.Metafield) (i : Z)
         (s : Effects.state Create.event Create.Counters),
    (List.length rest < fuel)%nat ->
    Z.of_nat (List.length pre) <= i ->
    (rest <> [] -> i = Z.of_nat (List.length pre)) ->
    exists s',
      Create.post_loop world fuel row productId (pre ++ rest)
        (Js.num_or (Types.batchSize options) 50) i s
      = (s', Effects.Ret tt)
      /\ List.concat (Create.posts (Effects.trace s'))
         = List.concat (Create.posts (Effects.trace s)) ++ rest
      /\ Create.successCount (Effects.locals s')
         = (Create.successCount (Effects.locals s) + List.length rest)%nat
      /\ Create.errorCount (Effects.locals s')
         = Create.errorCount (Effects.locals s).
Proof.
  induction fuel as [|fuel IH]; intros rest pre i s Hf Hi Hrest; [lia|].
  destruct rest as [|x rest].
  - exists s. rewrite !app_nil_r. cbn [Create.post_loop List.length].
    destruct (i <? Z.of_nat (List.length pre)) eqn:E;
      [apply Z.ltb_lt in E; lia|].
    repeat split. lia.
  - assert (i = Z.of_nat (List.length pre)) as ->
        by (apply Hrest; discriminate).
    rewrite (post_loop_step world options Hn). rewrite Hok.
    set (n := Js.num_or (Types.batchSize options) 50) in *.
    set (g := firstn (Z.to_nat n) (x :: rest)).
    set (rest' := skipn (Z.to_nat n) (x :: rest)).
    assert (Hsplit : g ++ rest' = x :: rest) by apply firstn_skipn.
    assert (Hlen : (List.length g + List.length rest'
                    = List.length (x :: rest))%nat)
      by (rewrite <- length_app; now rewrite Hsplit).
    assert (Hg : (1 <= List.length g)%nat).
    { subst g. rewrite length_firstn. cbn [List.length]. lia. }
    match goal with
    | |- context [Create.post_loop world fuel row productId _ n ?j ?st] =>
        destruct (IH rest' (pre ++ g) j st) as (s' & Hrun & Hposts & Hsucc & Herr)
    end.
    + cbn [List.length] in *. lia.
    + rewrite length_app. subst g. rewrite length_firstn.
      cbn [List.length]. lia.
    + intros Hne. rewrite length_app. subst g. rewrite length_firstn.
      destruct (Nat.le_gt_cases (Z.to_nat n) (List.length (x :: rest)))
        as [Hle|Hgt].
      * rewrite Nat.min_l by trivial. lia.
      * exfalso. apply Hne. subst rest'. apply skipn_all2. lia.
    + exists s'. split; [exact Hrun|].
      cbn [Effects.trace Effects.locals Create.count_success
             Create.successCount Create.errorCount] in Hposts, Hsucc, Herr.
      rewrite !posts_app in Hposts. cbn [Create.posts] in Hposts.
      rewrite app_nil_r, concat_app in Hposts. cbn [List.concat] in Hposts.
      rewrite app_nil_r in Hposts.
      split; [|split].
      * rewrite Hposts, <- Hsplit, <- !app_assoc. reflexivity.
      * rewrite Hsucc. lia.
      * exact Herr.
Qed.

End CreateAccepts.

(** X15: for a row with a product id, a dry run logs and counts exactly the
    number of records of the row; a live run against a remote that accepts
    everything submits exactly those records, each once and in order, and
    adds their number to the count of created records without counting an
    error (batch size of one or more, fuel above the number of columns). *)
Theorem row_dry_run_matches_live (world : Create.World)
  (options : Types.ProgramOptions) (fuel : nat) (client : Client.t)
  (row : Utils.Row) (productId : Z)
  (s : Effects.state Create.event Create.Counters) :
  Js.parseInt (Utils.get row "id") = Some productId ->
  productId <> 0 ->
  1 <= Js.num_or (Types.batchSize options) 50 ->
  (List.length row < fuel)%nat ->
  (forall t body, Create.post world t body = Effects.Ok tt) ->
  (Types.is_dryRun options = true ->
   Create.process_row world options fuel (Some client) row s
   = (Effects.mkState
        (Effects.trace s
         ++ [Create.LogDryRun
               (List.length (Utils.transformToMetafields row productId))
               productId (Utils.get row "sku")])
        (Create.count_product
           (List.length (Utils.transformToMetafields row productId))
           (Effects.locals s)),
      Effects.Ret tt))
  /\ (Types.is_dryRun options = false ->
      exists s',
        Create.process_row world options fuel (Some client) row s
        = (s', Effects.Ret tt)
        /\ List.concat (Create.posts (Effects.trace s'))
           = List.concat (Create.posts (Effects.trace s))
             ++ Utils.transformToMetafields row productId
        /\ Create.successCount (Effects.locals s')
           = (Create.successCount (Effects.locals s)
              + List.length (Utils.transformToMetafields row productId))%nat
        /\ Create.errorCount (Effects.locals s')
           = Create.errorCount (Effects.locals s)).
Proof.
  intros Hid Hnz Hn Hf Hok.
  assert (Hz : (productId =? 0) = false) by now apply Z.eqb_neq.
  set (metafields := Utils.transformToMetafields row productId).
  assert (Hlen : (List.length metafields < fuel)%nat).
  { subst metafields. unfold Utils.transformToMetafields. rewrite length_map.
    eapply Nat.le_lt_trans; [apply filter_length_le|exact Hf]. }
  split; intros Hdry; unfold Create.process_row; rewrite Hid, Hz, Hdry;
    fold metafields; cbn [negb andb].
  - reflexivity.
  - unfold Effects.bind at 1. cbn [Effects.modify].
    destruct (0 <? List.length metafields)%nat eqn:Epos.
    + unfold Create.submit_row, Effects.try_catch.
      match goal with
      | |- context [Create.post_loop world fuel row productId metafields _ 0 ?st] =>
          destruct (post_loop_accepts world options Hn Hok row productId fuel
                      metafields [] 0 st)
            as (s' & Hrun & Hposts & Hsucc & Herr);
            [exact Hlen|cbn; lia|reflexivity|]
      end.
      cbn [app] in Hrun. rewrite Hrun. exists s'. split; [reflexivity|].
      split; [exact Hposts|]. split; [exact Hsucc|exact Herr].
    + apply Nat.ltb_ge in Epos.
      assert (Hnil : metafields = [])
        by (destruct metafields; [reflexivity|cbn in Epos; lia]).
      rewrite Hnil. eexists. split; [reflexivity|].
      cbn. rewrite app_nil_r. repeat split. lia.
Qed.

Lemma row_dry_run_matches_live_witness :
  Js.parseInt (Utils.get Spec.two_column_row "id") = Some 5
  /\ 5 <> 0
  /\ 1 <= Js.num_or (Types.batchSize (Spec.live_options 1)) 50
  /\ (List.length Spec.two_column_row < 4)%nat
  /\ Types.is_dryRun (Spec.live_options 1) = false
  /\ exists s',
       Create.process_row (Spec.one_file [] (fun _ => true))
         (Spec.live_options 1) 4 (Some Spec.the_client) Spec.two_column_row
         Create.init
       = (s', Effects.Ret tt)
       /\ List.concat (Create.posts (Effects.trace s'))
          = List.concat (Create.posts (Effects.trace Create.init))
            ++ Utils.transformToMetafields Spec.two_column_row 5
       /\ Create.successCount (Effects.locals s')
          = (Create.successCount (Effects.locals Create.init)
             + List.length (Utils.transformToMetafields Spec.two_column_row 5))%nat
       /\ Create.errorCount (Effects.locals s')
          = Create.errorCount (Effects.locals Create.init).
Proof.
  split; [reflexivity|]. split; [discriminate|]. split; [cbn; lia|].
  split; [cbn; lia|]. split; [reflexivity|].
  apply (proj2 (row_dry_run_matches_live (Spec.one_file [] (fun _ => true))
                  (Spec.live_options 1) 4 Spec.the_client Spec.two_column_row
                  5 Create.init eq_refl ltac:(discriminate) ltac:(cbn; lia)
                  ltac:(cbn; lia) (fun _ _ => eq_refl))).
  reflexivity.
Defined.

(** ** The shape check of listed records *)

Lemma schema_raw_of (m : Delete.ProductMetafield) :
  Delete.productMetafieldSchema (Spec.raw_of m) = Some m.
Proof. now destruct m. Qed.

Lemma schema_inv (item : Delete.RawItem) (m : Delete.ProductMetafield) :
  Delete.productMetafieldSchema item = Some m -> item = Spec.raw_of m.
Proof.
  destruct item as [i r k n v]. unfold Delete.productMetafieldSchema.
  cbn [Delete.raw_id Delete.raw_resource_id Delete.raw_key
         Delete.raw_namespace Delete.raw_value].
  destruct i, r, k, n, v; try discriminate.
  intros H. now inversion H.
Qed.

(** X16: the shape check keeps an item exactly when its [id] and
    [resource_id] are numbers and its [key], [namespace] and [value] are
    strings, and then keeps these five values as they are; it keeps the
    order, never fails, and a listing of well-shaped items passes whole. *)
Theorem filter_allows_shape (items : list Delete.RawItem) :
  map Spec.raw_of (Delete.filter_allows items)
  = filter (fun item =>
              match Delete.productMetafieldSchema item with
              | Some _ => true
              | None => false
              end) items
  /\ (List.length (Delete.filter_allows items) <= List.length items)%nat
  /\ (forall found, Delete.filter_allows (map Spec.raw_of found) = found)
  /\ (forall other, Delete.filter_allows (items ++ other)
                    = Delete.filter_allows items ++ Delete.filter_allows other).
Proof.
  split; [|split; [|split]].
  - induction items as [|item items IH]; [reflexivity|].
    cbn [Delete.filter_allows filter].
    destruct (Delete.productMetafieldSchema item) as [m|] eqn:E;
      [|exact IH].
    cbn [map]. now rewrite IH, (schema_inv item m E).
  - induction items as [|item items IH]; [trivial|].
    cbn [Delete.filter_allows List.length].
    destruct (Delete.productMetafieldSchema item); cbn [List.length]; lia.
  - induction found as [|m found IH]; [reflexivity|].
    cbn [map Delete.filter_allows]. now rewrite schema_raw_of, IH.
  - intros other. induction items as [|item items IH]; [reflexivity|].
    cbn [app Delete.filter_allows].
    destruct (Delete.productMetafieldSchema item); now rewrite IH.
Qed.

(** ** The preview of the delete script *)

(** X17: in a dry run with credentials, a criterion and no fetch limit, when
    the listing does not fail and holds a well-shaped item, the delete
    script sends the store request and the listing, shows the first five
    well-shaped records as its sample, and returns normally. *)
Theorem delete_dry_run_sample (world : Delete.World)
  (opts : Types.DeleteOptions) (fuel : nat)
  (yielded : list Delete.RawItem) :
  Types.has_credentials (Types.program opts) = true ->
  Delete.is_undefined (Types.key opts)
  && Delete.is_undefined (Types.namespace opts)
  && Delete.is_undefined (Types.productId opts) = false ->
  Js.truthy_num (Types.limit (Types.program opts)) = false ->
  (forall t q, Delete.list_ world t q = (yielded, None)) ->
  Types.is_dryRun (Types.default_dryRun (Types.program opts)) = true ->
  Delete.filter_allows yielded <> [] ->
  Delete.script world opts fuel Delete.init
  = (Effects.mkState
       [Delete.GetStore;
        Delete.ListCall
          (Delete.mkQuery (Types.key opts) (Types.namespace opts)
             (Types.productId opts));
        Delete.LogSample (firstn 5 (Delete.filter_allows yielded))] tt,
     Effects.Ret tt).
Proof.
  intros Hcred Hcrit Hlimit Hlisting Hdry Hfound.
  rewrite (script_is_main world opts Hcred Hcrit).
  destruct (main_after_store world opts Hcred fuel) as (client & ->).
  unfold Effects.try_catch. unfold Effects.bind at 1.
  rewrite (fetch_after_store world opts yielded None Hlimit Hlisting).
  destruct yielded as [|item rest]; [now cbn in Hfound|].
  cbn [Delete.with_program Types.program]. rewrite Hdry.
  destruct (Delete.filter_allows (item :: rest)) as [|m found] eqn:E;
    [congruence|].
  cbn [Effects.emit Effects.trace Effects.locals app].
  change (Js.slice (m :: found) 0 (Some 5))
    with (Js.slice (m :: found) 0 (Some (0 + 5))).
  rewrite slice_skip_take by lia. reflexivity.
Qed.

Lemma delete_dry_run_sample_witness :
  Delete.filter_allows [Spec.listed 1; Spec.listed 2] <> []
  /\ Delete.script
       (Spec.delete_world [Spec.listed 1; Spec.listed 2] (fun _ => true))
       (Spec.by_key Spec.dry_options) 5 Delete.init
     = (Effects.mkState
          [Delete.GetStore;
           Delete.ListCall
             (Delete.mkQuery (Some ["short_description_mf"]) None None);
           Delete.LogSample
             (firstn 5 (Delete.filter_allows [Spec.listed 1; Spec.listed 2]))]
          tt,
        Effects.Ret tt).
Proof.
  split; [discriminate|].
  apply (delete_dry_run_sample
           (Spec.delete_world [Spec.listed 1; Spec.listed 2] (fun _ => true))
           (Spec.by_key Spec.dry_options) 5 [Spec.listed 1; Spec.listed 2]);
    [reflexivity|reflexivity|reflexivity|reflexivity|reflexivity|discriminate].
Defined.
